(** * react-storefront: the client-side state fetcher and the history recorder

    A shallow embedding of

    - [src/router/fromServer.js]: [fetch] and [redirectTo];
    - the [PWA] root component: [recordStateOnChange] and [recordState];

    and the properties the specification states about them; then of the
    handler [fromServer] creates ([createURL], [getCachedResponse], [fn]),
    of the rest of [PWA] ([shouldNavigateOnClient], [watchLinkClicks],
    [onBeforeRouteChange], [componentDidUpdate], [nextId],
    [componentDidMount]) and of [ExpandableSection]
    ([getDerivedStateFromProps], [onChange], [getSummaryClasses]), with
    properties read off their code.

    JavaScript effects are modelled with a state-and-exception monad whose
    state carries the browser (an abstract world [W]) and the trace of the
    calls the program makes into it.  The [async] function [fetch] is cut
    at its suspension points: [fetch_dispatch] runs until the request has
    been handed to [doFetch], [fetch_arrive] is the [.then] callback that
    runs when the request settles, and [fetch_resume] is what runs when
    the [await] resumes.  Whatever happens to the browser in between is a
    parameter. *)

From Stdlib Require Import Ascii String.
From stdpp Require Import base strings gmap list pretty.

Set Default Proof Using "Type".
#[local] Set Warnings "-register-all".
#[local] Set Warnings "-clear-no-such-hyp".

(** ** JavaScript data *)

(** Values that [JSON.parse] / [response.json()] may produce.  Objects are
    finite maps from property names to values.  The program never looks
    inside a number; integers stand for them. *)
Inductive JSON : Type :=
  | JNull
  | JBool (b : bool)
  | JNum (n : Z)
  | JStr (s : string)
  | JArr (xs : list JSON)
  | JObj (fields : gmap string JSON).

(** What a JavaScript expression may evaluate to here: [undefined], or a
    JSON-like value ([null] is [val JNull]). *)
Inductive Value : Type :=
  | undefined
  | val (j : JSON).

Abbreviation null := (val JNull).

(** [v != null] fails for exactly [undefined] and [null]. *)
Definition nullish (v : Value) : bool :=
  match v with
  | undefined | null => true
  | _ => false
  end.

(** The own enumerable properties of a value, i.e. what the spread
    [{ ...v }] copies: the fields of an object, the indexed elements of an
    array, the indexed characters of a string (one per code unit; here,
    per byte), nothing for the rest. *)
Definition own_properties (j : JSON) : gmap string JSON :=
  match j with
  | JObj fields => fields
  | JArr xs => list_to_map (imap (fun i x => (pretty i, x)) xs)
  | JStr s =>
      list_to_map
        (imap (fun i c => (pretty i, JStr (String c EmptyString)))
              (String.list_ascii_of_string s))
  | _ => ∅
  end.

(** [{ loading: false, ...result }]: later properties win, so the fields of
    [result] override the default. *)
Definition spread_loading (result : JSON) : JSON :=
  JObj (own_properties result ∪ {[ "loading" := JBool false ]}).

(** A JavaScript string is truthy unless it is empty; [undefined] (here
    [None]) is falsy. *)
Definition truthy (s : option string) : bool :=
  match s with
  | Some s => negb (String.eqb s "")
  | None => false
  end.

(** ** Exceptions *)

Inductive exn : Type :=
  | StaleResponseError
  | Error (message : string)
  | Thrown (name message : string).

(** Modelled from the spec: [StaleResponseError] is exported by
    [../fetchLatest], which is not among the sources; the specification
    calls it a distinguishable "stale" failure, so [StaleResponseError.is]
    recognises that signal and nothing else. *)
Definition StaleResponseError_is (e : exn) : bool :=
  match e with
  | StaleResponseError => true
  | _ => false
  end.

(** ** Browser objects *)

(** The fields of [window.location] and of a parsed [URL]. *)
Record URL : Type := mkURL {
  href : string;
  protocol : string;
  hostname : string;
  port : string;
  pathname : string;
  search : string;
  hash : string
}.

(** Two URLs share an origin when scheme, host and port agree. *)
Definition same_origin (a b : URL) : bool :=
  String.eqb (protocol a) (protocol b)
  && String.eqb (hostname a) (hostname b)
  && String.eqb (port a) (port b).

(** [history.location]; [hash] may be missing. *)
Record HistoryLocation : Type := mkHistoryLocation {
  h_pathname : string;
  h_search : string;
  h_hash : option string
}.

(** The methods of the [history] object the program names. *)
Inductive Method : Type := push | replace | go | goBack | goForward.

#[global] Instance Method_eq_dec : EqDecision Method.
Proof. solve_decision. Defined.

(** The names of the request headers, imported from [./headers]. *)
Inductive HeaderName : Type := REACT_STOREFRONT | API_VERSION | CLIENT_IF.

(** The second argument of [doFetch]. *)
Record RequestInit : Type := mkRequestInit {
  init_cache : string;
  init_credentials : string;
  init_headers : list (HeaderName * string)
}.

(** What [fetch] reads from a response; [json] is the outcome of
    [response.json()]. *)
Record Response : Type := mkResponse {
  redirected : bool;
  url : option string;
  status : Z;
  json : exn + JSON
}.

(** The second argument of [fetch]. *)
Record Options : Type := mkOptions {
  cache : option string;
  onlyHit : bool
}.

(** ** Effects *)

(** Every call the program makes into its environment. *)
Inductive Event : Type :=
  | abortPrefetches
  | resumePrefetches
  | doFetch (url : string) (init : RequestInit)
  | history_call (m : Method) (args : list JSON)
  | location_assign (url : string)
  | set_redirected
  | console_warn (message : string).

(** The environment of the program.  [ext e w] is what the call [e] does to
    the browser in state [w] and whether it throws. *)
Class Platform (W : Type) : Type := {
  ext : Event -> W -> W * option exn;
  window_location : W -> URL;
  history_location : W -> HistoryLocation;
  app_toJSON : W -> exn + JSON;
  new_URL : string -> exn + URL;
  getAPIVersion : W -> string
}.

Section Monad.
Context {W : Type}.

Record St : Type := mkSt { world : W; trace : list Event }.

(** A computation transforms the state and either throws or returns. *)
Definition M (A : Type) : Type := St -> St * (exn + A).

Definition ret {A} (a : A) : M A := fun s => (s, inr a).

Definition throw {A} (e : exn) : M A := fun s => (s, inl e).

Definition bind {A B} (m : M A) (k : A -> M B) : M B :=
  fun s =>
    match m s with
    | (s', inr a) => k a s'
    | (s', inl e) => (s', inl e)
    end.

(** [try { m } catch (e) { handler e }] *)
Definition try_catch {A} (m : M A) (handler : exn -> M A) : M A :=
  fun s =>
    match m s with
    | (s', inl e) => handler e s'
    | r => r
    end.

(** Reading the environment. *)
Definition gets {A} (f : W -> A) : M A := fun s => (s, inr (f (world s))).

(** Evaluating an expression of the environment that may throw. *)
Definition eval {A} (f : W -> exn + A) : M A :=
  fun s => (s, f (world s)).

(** Resuming on the outcome of a settled promise. *)
Definition await {A} (outcome : exn + A) : M A := fun s => (s, outcome).

(** The state once something else, [f], has happened to the browser. *)
Definition after (f : W -> W) (s : St) : St := mkSt (f (world s)) (trace s).

(** Something else runs while the function is suspended. *)
Definition interleave (f : W -> W) : M unit :=
  fun s => (after f s, inr tt).

(** A step that is recorded and cannot fail. *)
Definition emit (e : Event) : M unit :=
  fun s => (mkSt (world s) (trace s ++ [e]), inr tt).

(** A call into the environment: recorded, then the environment reacts. *)
Definition call `{Platform W} (e : Event) : M unit :=
  fun s =>
    let (w', r) := ext e (world s) in
    (mkSt w' (trace s ++ [e]),
     match r with Some x => inl x | None => inr tt end).
End Monad.

Arguments St : clear implicits.
Arguments M : clear implicits.

Declare Scope js_scope.
Delimit Scope js_scope with js.
Notation "x <- m ;; k" := (bind m (fun x => k))
  (at level 100, m at next level, right associativity) : js_scope.
Notation "m ;; k" := (bind m (fun _ => k))
  (at level 100, right associativity) : js_scope.
Open Scope js_scope.

(** ** [src/router/fromServer.js] *)

Module fromServer.
Section WithPlatform.
Context {W : Type} `{Platform W}.

Definition no_location : exn :=
  Error "Received a redirect without a location header.".

(** function redirectTo(url) *)
Definition redirectTo (url : option string) : M W unit :=
  if truthy url then
    let url := default "" url in
    parsed <- eval (fun _ => new_URL url) ;;
    here <- gets window_location ;;
    if String.eqb (hostname parsed) (hostname here) then
      call (history_call push [JStr (pathname parsed +:+ search parsed)])
    else
      call (location_assign url)
  else
    throw no_location.

(** The request [fetch] hands to [doFetch]. *)
Definition request_init (o : Options) (api_version : string) : RequestInit :=
  {| init_cache :=
       match cache o with
       | Some c => if String.eqb c "" then "default" else c
       | None => "default"
       end;
     init_credentials := "include";
     init_headers :=
       [(REACT_STOREFRONT, "true"); (API_VERSION, api_version)]
         ++ (if onlyHit o then [(CLIENT_IF, "cache-hit")] else []) |}.

(** [fetch], up to the point where the request has been handed to
    [doFetch]; the result is the [href] it remembered.  [doFetch] is
    [fetchLatest]'s wrapper: it returns a promise, whose outcome is given
    to [fetch_arrive] later. *)
Definition fetch_dispatch (url : string) (o : Options) : M W string :=
  call abortPrefetches ;;
  href0 <- gets (fun w => href (window_location w)) ;;
  api_version <- gets getAPIVersion ;;
  emit (doFetch url (request_init o api_version)) ;;
  ret href0.

(** The callback given to [.then]. *)
Definition fetch_then (originalResponse : bool) (response : Response)
  : M W Value :=
  if redirected response then
    redirectTo (url response) ;;
    (if originalResponse then emit set_redirected else ret tt) ;;
    ret undefined
  else
    call resumePrefetches ;;
    if (status response =? 204)%Z then ret null
    else j <- await (json response) ;; ret (val j).

(** The [catch] clause. *)
Definition fetch_catch (e : exn) : M W Value :=
  if StaleResponseError_is e then ret null else throw e.

(** What runs after [await], still inside the [try]:
    [if (result != null && location.href === href) return {...}],
    and [undefined] when the function falls off its end. *)
Definition fetch_return (href0 : string) (result : Value) : M W Value :=
  match result with
  | undefined | null => ret undefined
  | val j =>
      now <- gets (fun w => href (window_location w)) ;;
      if String.eqb now href0 then ret (val (spread_loading j))
      else ret undefined
  end.

(** [doFetch(...).then(response => ...)] from the moment [doFetch] settles
    with [outcome]: a rejection skips the callback.  How this ends is what
    the promise awaited by [fetch] settles with. *)
Definition fetch_arrive (originalResponse : bool) (outcome : exn + Response)
  : M W Value :=
  response <- await outcome ;;
  fetch_then originalResponse response.

(** [fetch] from the resumption of its [await] on the settled [promise]:
    the rest of the [try] block, and the [catch] clause. *)
Definition fetch_resume (href0 : string) (promise : exn + Value) : M W Value :=
  try_catch
    (result <- await promise ;;
     fetch_return href0 result)
    fetch_catch.

(** [fetch] from the moment [doFetch] settles.  [reading] is what happens
    to the browser between the [.then] callback and the resumption of the
    [await] (the body is read in between). *)
Definition fetch_settle (href0 : string) (originalResponse : bool)
    (outcome : exn + Response) (reading : W -> W) : M W Value :=
  fun s =>
    let (s1, promise) := fetch_arrive originalResponse outcome s in
    fetch_resume href0 promise (after reading s1).

(** The state in which the [await] resumes when the response was not a
    redirect and [resumePrefetches] has returned. *)
Definition resumed (reading : W -> W) (s : St W) : St W :=
  mkSt (reading (ext resumePrefetches (world s)).1)
       (trace s ++ [resumePrefetches]).

(** A whole call: [flight] is what happens to the browser while the
    request is in flight. *)
Definition fetch (url : string) (o : Options) (originalResponse : bool)
    (flight : W -> W) (outcome : exn + Response) (reading : W -> W)
  : M W Value :=
  href0 <- fetch_dispatch url o ;;
  interleave flight ;;
  fetch_settle href0 originalResponse outcome reading.
End WithPlatform.
End fromServer.

(** ** The [PWA] component: recording the app state in the history *)

Module PWA.
Section WithPlatform.
Context {W : Type} `{Platform W}.

(** A [history] object, as far as the component uses it: its methods. *)
Definition History : Type := Method -> list JSON -> M W unit.

(** The object the component is given: every method is the browser's. *)
Definition browser_history : History :=
  fun m args => call (history_call m args).

Definition warning : string :=
  "Could not record app state in history.  Will fall back to fetching state from the server when navigating back and forward.".

(** [pathname + hash + search], with [hash = ''] by default. *)
Definition entry_path (l : HistoryLocation) : string :=
  h_pathname l +:+ default "" (h_hash l) +:+ h_search l.

(** The body of the [try]:
    [history.replace(pathname + hash + search, app.toJSON())] *)
Definition write_snapshot (history : History) (path : string) : M W unit :=
  snapshot <- eval app_toJSON ;;
  history replace [JStr path; snapshot].

(** recordState() *)
Definition recordState (history : History) : M W unit :=
  l <- gets history_location ;;
  let path := entry_path l in
  try_catch
    (write_snapshot history path)
    (fun _ =>
       history replace [JStr path; JNull] ;;
       emit (console_warn warning)).

(** The methods [recordStateOnChange] loops over. *)
Definition recorded_methods : list Method := [push; go; goBack; goForward].

(** recordStateOnChange(history): each listed method is replaced by a
    function that records the state and then calls the original. *)
Definition recordStateOnChange (recordState : M W unit) (history : History)
  : History :=
  foldl
    (fun (history : History) (method : Method) =>
       let original := history method in
       fun m =>
         if decide (m = method)
         then fun args => recordState ;; original args
         else history m)
    history recorded_methods.

(** The object after the constructor has run.  [recordState] reads
    [replace] from this same object when it is called;
    [recordStateOnChange] never assigns [replace], so that is the
    method of the object it was given (see [patched_replace]). *)
Definition patched (history : History) : History :=
  recordStateOnChange (recordState history) history.
End WithPlatform.
End PWA.

(** ** The request deduplicator *)

Module fetchLatest.
(** Modelled from the spec: [fetchLatest] lives in [../fetchLatest], which
    is not among the sources.  Per the specification, each call increments
    a shared generation counter and binds the returned promise to that
    generation. *)
Definition issue (counter : nat) : nat := S counter.

(** Modelled from the spec: when the request settles, its outcome is
    honoured only if no later call was made; otherwise the caller
    observes the stale signal instead. *)
Definition settle {A} (counter id : nat) (outcome : exn + A) : exn + A :=
  if decide (id = counter) then outcome else inl StaleResponseError.
End fetchLatest.

(** ** Overlapping calls of [fetch] on one page

    All calls share [doFetch], hence the generation counter.  Calls are
    named by the generation their request was given. *)

Module Session.
Section WithPlatform.
Context {W : Type} `{Platform W}.

(** What a suspended call of [fetch] holds on to: the href it remembered,
    whether it was given an [originalResponse], and, once its request has
    settled, what the promise it awaits settles with. *)
Record Suspended : Type := mkSuspended {
  remembered_href : string;
  originalResponse : bool;
  promise : option (exn + Value)
}.

Record Page : Type := mkPage {
  browser : St W;
  counter : nat;                      (* fetchLatest's generation counter *)
  suspended : gmap nat Suspended;     (* suspended calls, by generation *)
  applied : list (nat * Value)        (* patches handed back to callers *)
}.

(** What can happen on the page: [fetch] is called; the request of a call
    settles and its [.then] callback runs; a call resumes from its
    [await]; anything else. *)
Inductive Action : Type :=
  | Fetch (url : string) (o : Options) (originalResponse : bool)
  | Arrive (id : nat) (outcome : exn + Response)
  | Resume (id : nat)
  | Other (f : W -> W).

(** A caller applies what [fetch] resolves with unless it is nullish. *)
Definition handed_back (id : nat) (r : exn + Value) : list (nat * Value) :=
  match r with
  | inr v => if nullish v then [] else [(id, v)]
  | inl _ => []
  end.

Definition step (p : Page) (a : Action) : Page :=
  match a with
  | Fetch url o orig =>
      match fromServer.fetch_dispatch url o (browser p) with
      | (s, inr href0) =>
          let id := fetchLatest.issue (counter p) in
          mkPage s id (<[id := mkSuspended href0 orig None]> (suspended p))
                 (applied p)
      | (s, inl _) => mkPage s (counter p) (suspended p) (applied p)
      end
  | Arrive id outcome =>
      match suspended p !! id with
      | Some (mkSuspended href0 orig None) =>
          let (s, r) :=
            fromServer.fetch_arrive orig
              (fetchLatest.settle (counter p) id outcome) (browser p) in
          mkPage s (counter p)
                 (<[id := mkSuspended href0 orig (Some r)]> (suspended p))
                 (applied p)
      | _ => p
      end
  | Resume id =>
      match suspended p !! id with
      | Some (mkSuspended href0 orig (Some r)) =>
          let (s, v) := fromServer.fetch_resume href0 r (browser p) in
          mkPage s (counter p) (delete id (suspended p))
                 (applied p ++ handed_back id v)
      | _ => p
      end
  | Other f => mkPage (after f (browser p)) (counter p) (suspended p) (applied p)
  end.

Definition run (p : Page) (actions : list Action) : Page :=
  foldl step p actions.

Definition start (w : W) : Page := mkPage (mkSt w []) 0 ∅ [].

Definition is_fetch (a : Action) : bool :=
  match a with Fetch _ _ _ => true | _ => false end.

Definition is_response (a : Action) : bool :=
  match a with Arrive _ _ | Resume _ => true | _ => false end.

(** No call has heard from its request, and nothing has been applied. *)
Definition all_in_flight (p : Page) : Prop :=
  applied p = []
  /\ forall id c, suspended p !! id = Some c -> promise c = None.

(** Whatever has been applied, and whatever a suspended call may still
    hand back, is of generation [n], the value of the counter. *)
Definition only_latest (n : nat) (p : Page) : Prop :=
  counter p = n
  /\ (forall id v, (id, v) ∈ applied p -> id = n)
  /\ (forall id href0 orig v,
        suspended p !! id = Some (mkSuspended href0 orig (Some (inr v))) ->
        nullish v = false ->
        id = n).

(** Generations are handed out once: those of suspended calls and of
    applied patches are at most the counter, and a call whose patch has
    been applied is no longer suspended. *)
Definition well_numbered (p : Page) : Prop :=
  (forall id c, suspended p !! id = Some c -> id <= counter p)
  /\ (forall id v, (id, v) ∈ applied p ->
                   id <= counter p /\ suspended p !! id = None).

(** Call [id] is out of the race: nothing of it has been applied, and if
    it is still suspended it is about to observe the stale signal. *)
Definition discarded (id : nat) (p : Page) : Prop :=
  id <= counter p
  /\ (forall v, (id, v) ∉ applied p)
  /\ (forall c, suspended p !! id = Some c ->
                promise c = Some (inl StaleResponseError)).
End WithPlatform.
End Session.

(** ** A concrete browser, to run the definitions on *)

Module Demo.
Open Scope char_scope.

(** The longest prefix of [s] free of stop characters, and the rest. *)
Fixpoint break (stop : ascii -> bool) (s : string) : string * string :=
  match s with
  | EmptyString => (EmptyString, EmptyString)
  | String c s' =>
      if stop c then (EmptyString, s)
      else let (a, b) := break stop s' in (String c a, b)
  end.

(** Splits [scheme://rest]. *)
Fixpoint split_scheme (s : string) : option (string * string) :=
  match s with
  | String ":" (String "/" (String "/" rest)) => Some (EmptyString, rest)
  | String c s' =>
      match split_scheme s' with
      | Some (a, r) => Some (String c a, r)
      | None => None
      end
  | EmptyString => None
  end.

Definition one_of (cs : list ascii) (c : ascii) : bool :=
  bool_decide (c ∈ cs).

Definition tail (s : string) : string :=
  match s with String _ s' => s' | EmptyString => EmptyString end.

(** [new URL(s)] for absolute URLs of the shape
    [scheme://host[:port][/path][?query][#fragment]]; anything else is a
    [TypeError], as in the browser. *)
Definition parse_URL (s : string) : exn + URL :=
  match split_scheme s with
  | None => inl (Thrown "TypeError" "Invalid URL")
  | Some (scheme, rest) =>
      let (authority, rest) := break (one_of ["/"; "?"; "#"]) rest in
      let (host, colon_port) := break (one_of [":"]) authority in
      let (path, rest) := break (one_of ["?"; "#"]) rest in
      let (query, fragment) := break (one_of ["#"]) rest in
      inr {| href := s;
             protocol := scheme +:+ ":";
             hostname := host;
             port := tail colon_port;
             pathname := if String.eqb path "" then "/"%string else path;
             search := query;
             hash := fragment |}
  end.

Close Scope char_scope.

(** The browser: where it is, what the app holds, what the current
    history entry stores, how large a stored state may be, and how many
    more writes to the history the browser tolerates. *)
Record Browser : Type := mkBrowser {
  location : URL;
  app : JSON;
  entry_state : JSON;
  state_limit : nat;
  writes_left : nat;
  prefetching : bool
}.

(** A stand-in for the serialized size: the number of top-level items. *)
Definition weight (j : JSON) : nat :=
  match j with
  | JObj fields => size fields
  | JArr xs => length xs
  | JStr s => String.length s
  | _ => 0
  end.

Definition navigate (path : string) (b : Browser) : Browser :=
  let l := location b in
  let target := protocol l +:+ "//" +:+ hostname l
                +:+ (if String.eqb (port l) "" then "" else ":" +:+ port l)
                +:+ path in
  match parse_URL target with
  | inr u => mkBrowser u (app b) JNull (state_limit b) (writes_left b)
                       (prefetching b)
  | inl _ => b
  end.

(** Writing the state of the current entry.  The browser counts every
    attempt, and refuses a state that is too large. *)
Definition write_state (state : JSON) (b : Browser) : Browser * option exn :=
  match writes_left b with
  | O => (b, Some (Thrown "SecurityError" "too many calls to replaceState"))
  | S n =>
      if decide (weight state ≤ state_limit b) then
        (mkBrowser (location b) (app b) state (state_limit b) n
                   (prefetching b), None)
      else
        (mkBrowser (location b) (app b) (entry_state b) (state_limit b) n
                   (prefetching b),
         Some (Thrown "DataCloneError" "the state is too large"))
  end.

Definition react (e : Event) (b : Browser) : Browser * option exn :=
  match e with
  | abortPrefetches =>
      (mkBrowser (location b) (app b) (entry_state b) (state_limit b)
                 (writes_left b) false, None)
  | resumePrefetches =>
      (mkBrowser (location b) (app b) (entry_state b) (state_limit b)
                 (writes_left b) true, None)
  | history_call replace [JStr _; state] => write_state state b
  | history_call push (JStr path :: _) => (navigate path b, None)
  | location_assign target =>
      match parse_URL target with
      | inr u =>
          (mkBrowser u JNull JNull (state_limit b) (writes_left b) false,
           None)
      | inl _ => (b, None)
      end
  | _ => (b, None)
  end.

#[global] Instance browser_platform : Platform Browser := {|
  ext := react;
  window_location := location;
  history_location :=
    fun b => mkHistoryLocation (pathname (location b)) (search (location b))
                               (Some (hash (location b)));
  app_toJSON := fun b => inr (app b);
  new_URL := parse_URL;
  getAPIVersion := fun _ => "1"
|}.

Definition shop : URL :=
  mkURL "https://shop.example.com/products/1" "https:" "shop.example.com"
        "" "/products/1" "" "".

Definition product (id : Z) : JSON :=
  JObj {[ "page" := JStr "Product"; "id" := JNum id ]}.

Definition browser0 : Browser :=
  mkBrowser shop (product 0) JNull 3 100 true.

Definition s0 : St Browser := mkSt browser0 [].

Definition ok (body : JSON) : Response := mkResponse false None 200 (inr body).

Definition no_content : Response :=
  mkResponse false None 204 (inl (Thrown "SyntaxError" "Unexpected end of JSON input")).

Definition redirect (target : option string) : Response :=
  mkResponse true target 200 (inr (JObj ∅)).

Definition plain : Options := mkOptions None false.

(** Redirect targets: on the shop's origin; on the shop's host but
    another scheme and port; on another host. *)
Definition newpath : string := "https://shop.example.com/newpath".
Definition other_port : string := "http://shop.example.com:8080/cart?x=1".
Definition elsewhere : string := "https://other.example.com/cart?x=1".

(** The user has gone to the cart while a request was in flight. *)
Definition moved : St Browser := mkSt (navigate "/cart" browser0) [].

(** A body that sets [loading] itself. *)
Definition still_loading : JSON :=
  JObj {[ "loading" := JBool true; "page" := JStr "Cart" ]}.

(** The app state does not fit the history entry, which holds an older
    snapshot. *)
Definition cramped : St Browser :=
  mkSt (mkBrowser shop (product 0) (product 7) 1 100 true) [].

(** The same, and the browser tolerates just one more write. *)
Definition exhausted : St Browser :=
  mkSt (mkBrowser shop (product 0) (product 7) 1 1 true) [].

(** The scenario of the specification: A is fetched, then B before A has
    settled; A's response arrives first, B's second. *)
Definition two_calls : list (Session.Action (W := Browser)) :=
  [Session.Fetch "/products/1.json" plain false;
   Session.Fetch "/products/2.json" plain false].

Definition a_then_b : list (Session.Action (W := Browser)) :=
  [Session.Arrive 1 (inr (ok (product 1))); Session.Resume 1;
   Session.Arrive 2 (inr (ok (product 2))); Session.Resume 2].

Definition b_then_a : list (Session.Action (W := Browser)) :=
  [Session.Arrive 2 (inr (ok (product 2)));
   Session.Arrive 1 (inr (ok (product 1)));
   Session.Resume 1; Session.Resume 2].
End Demo.


(** ** [fromServer]: the handler it creates *)

Module fromServer_factory.

(** The headers a transpiled handler is tagged with, from [./headers]. *)
Inductive ResponseHeader : Type := HANDLER | RESPONSE_TYPE | SURROGATE_KEY.

(** [s.endsWith(suffix)] *)
Definition endsWith (s suffix : string) : bool :=
  let n := String.length s in
  let m := String.length suffix in
  (m <=? n) && String.eqb (String.substring (n - m) m s) suffix.

Section WithPlatform.
Context {W : Type} `{Platform W}.

(** [isServiceWorkerReady], imported from [./serviceWorker]. *)
Variable isServiceWorkerReady : W -> bool.

(** The second argument of [fromServer], if given. *)
Variable getURL : option (string -> string).

(** function createURL() *)
Definition createURL : M W string :=
  l <- gets window_location ;;
  let url := pathname l +:+ ".json" +:+ search l in
  ret (match getURL with Some f => f url | None => url end).

(** async getCachedResponse(response); [clientCache] is
    [response.clientCache]. *)
Definition getCachedResponse (clientCache : option string) (flight : W -> W)
    (outcome : exn + Response) (reading : W -> W) : M W Value :=
  ready <- gets isServiceWorkerReady ;;
  if negb ready then ret null
  else
    url <- createURL ;;
    fromServer.fetch url (mkOptions clientCache true) false
      flight outcome reading.

(** async fn(params, request, response) when [handlerPath] is a string:
    the response is handed on as [originalResponse]. *)
Definition fn_fetch (clientCache : option string) (flight : W -> W)
    (outcome : exn + Response) (reading : W -> W) : M W Value :=
  url <- createURL ;;
  fromServer.fetch url (mkOptions clientCache false) true
    flight outcome reading.
End WithPlatform.

Section Transpiled.
(** The response, the params and the request of the server, and what a
    handler returns. *)
Context {R P Q A : Type}.
Variable response_set : ResponseHeader -> string -> R -> R.
Variable response_get : ResponseHeader -> R -> option string.
Variable request_path : Q -> string.

(** async fn(params, request, response) when [handlerPath] has been
    transpiled to a function, [path] being [handlerPath.path]. *)
Definition fn_handler (path : string) (handlerPath : P -> Q -> R -> A)
    (params : P) (request : Q) (response : R) : A :=
  let response := response_set HANDLER path response in
  let response :=
    response_set RESPONSE_TYPE
      (if endsWith (request_path request) ".json" then "json" else "ssr")
      response in
  let response :=
    if negb (truthy (response_get SURROGATE_KEY response))
    then response_set SURROGATE_KEY path response
    else response in
  handlerPath params request response.
End Transpiled.
End fromServer_factory.

(** ** The [PWA] component: links, scrolling, ids, mounting *)

Module PWA_view.

(** An element, as far as the component asks: its tag and attributes. *)
Record Element : Type := mkElement {
  tagName : string;
  attributes : gmap string string
}.

Definition getAttribute (name : string) (el : Element) : option string :=
  attributes el !! name.

(** [c.toLowerCase()] on one character; only A-Z have a lower case here. *)
Definition lower (c : ascii) : ascii :=
  let n := Ascii.nat_of_ascii c in
  if (65 <=? n) && (n <=? 90) then Ascii.ascii_of_nat (n + 32) else c.

(** [s.toLowerCase()] *)
Fixpoint toLowerCase (s : string) : string :=
  match s with
  | EmptyString => EmptyString
  | String c s' => String (lower c) (toLowerCase s')
  end.

Section Links.
Context {W : Type} `{Platform W}.

(** [canUseClientSideNavigation(href, this.props.router)], imported from
    [./utils/url]. *)
Variable canUseClientSideNavigation : option string -> bool.

(** shouldNavigateOnClient(linkEl) *)
Definition shouldNavigateOnClient (linkEl : Element) : bool :=
  let href := getAttribute "href" linkEl in
  let linkTarget := getAttribute "target" linkEl in
  if negb (String.eqb (toLowerCase (tagName linkEl)) "a") then false
  else if bool_decide (getAttribute "data-moov-link" linkEl = Some "on")
  then false
  else if bool_decide
            (getAttribute "data-reload" linkEl ∈ [Some "true"; Some "on"])
  then false
  else if truthy linkTarget
          && negb (bool_decide (linkTarget = Some "_self"))
  then false
  else canUseClientSideNavigation href.

(** The listener [watchLinkClicks] installs, on a click whose
    [delegateTarget] is given: whether it calls [e.preventDefault()], and
    what it does then. *)
Definition on_click (history : PWA.History) (delegateTarget : Element)
  : bool * M W unit :=
  if shouldNavigateOnClient delegateTarget then
    (true,
     history push [match getAttribute "href" delegateTarget with
                   | Some href => JStr href
                   | None => JNull
                   end])
  else (false, ret tt).
End Links.

(** What the component does to the page and to the app. *)
Inductive Effect : Type :=
  | scrollTo (x y : Z)
  | menu_close
  | router_watch
  | router_on_before
  | delegate_click
  | body_class_add (name : string)
  | setOffline (offline : bool)
  | addEventListener (type : string)
  | fetchFreshState
  | cache (path : string) (data : Value)
  | connectReduxDevtools.

Section Scroll.
(** The app model, as far as scrolling goes. *)
Context {App : Type}.
Variable scrollResetPending : App -> bool.
Variable setScrollResetPending : bool -> App -> App.
Variable close_menu : App -> App.

(** onBeforeRouteChange({ action }) *)
Definition onBeforeRouteChange (action : string) (app : App) : App :=
  if String.eqb action "PUSH" then setScrollResetPending true app else app.

(** componentDidUpdate(), with [resetPage] in it. *)
Definition componentDidUpdate (app : App) : list Effect * App :=
  if scrollResetPending app then
    ([scrollTo 0 0; menu_close],
     setScrollResetPending false (close_menu app))
  else ([], app).

(** The component is updated [n] times with no route change in between. *)
Fixpoint updates (n : nat) (app : App) : list Effect * App :=
  match n with
  | O => ([], app)
  | S n =>
      let (first, app) := componentDidUpdate app in
      let (rest, app) := updates n app in
      (first ++ rest, app)
  end.
End Scroll.

(** [x + 1] on a number that is a whole number from 0 to 2^53: beyond
    2^53 the sum is rounded back to 2^53. *)
Definition increment (x : Z) : Z :=
  if (x <? 2 ^ 53)%Z then (x + 1)%Z else x.

(** nextId: [return this._nextId++], on the value of [_nextId]. *)
Definition nextId (_nextId : Z) : Z * Z := (_nextId, increment _nextId).

(** The ids of [n] calls in a row. *)
Fixpoint ids (n : nat) (_nextId : Z) : list Z :=
  match n with
  | O => []
  | S n => let (id, next) := nextId _nextId in id :: ids n next
  end.

(** What [componentDidMount] reads. *)
Record Mounting : Type := mkMounting {
  router : option bool;            (* if given: isAppShellConfigured() *)
  safari : bool;                   (* isSafari() *)
  onLine : bool;                   (* navigator.onLine *)
  page_is_null : bool;             (* app.page === null *)
  app_pathname : string;           (* app.location.pathname *)
  app_search : string;             (* app.location.search *)
  initialRouteData : Value;        (* window.initialRouteData *)
  outerHTML : string;              (* document.documentElement.outerHTML *)
  NODE_ENV : string
}.

Definition newline : string := String (Ascii.ascii_of_nat 10) EmptyString.

(** componentDidMount(): what it has done when it returns or throws.
    What the listeners and the promise of [fetchFreshState] do later is
    not part of it. *)
Definition componentDidMount (m : Mounting) : list Effect * option exn :=
  let routed :=
    match router m with
    | Some _ => [router_watch; router_on_before]
    | None => []
    end in
  let started :=
    routed
      ++ [delegate_click]
      ++ (if safari m then [body_class_add "moov-safari"] else [])
      ++ [setOffline (negb (onLine m));
          addEventListener "online"; addEventListener "offline"] in
  if negb (onLine m) && page_is_null m && negb (bool_decide (is_Some (router m)))
  then
    (started,
     Some (Thrown "TypeError"
                  "Cannot read property 'fetchFreshState' of undefined"))
  else
    let fetched :=
      if negb (onLine m) && page_is_null m then [fetchFreshState] else [] in
    let cached :=
      if onLine m then
        (if default false (router m)
         then [cache "/.app-shell" undefined] else [])
          ++ (let path := app_pathname m +:+ app_search m in
              [cache (path +:+ ".json") (initialRouteData m);
               cache path
                     (val (JStr ("<!DOCTYPE html>" +:+ newline
                                   +:+ outerHTML m)))])
      else [] in
    let devtools :=
      if negb (String.eqb (NODE_ENV m) "production")
         && negb (String.eqb (NODE_ENV m) "test")
      then [connectReduxDevtools] else [] in
    (started ++ fetched ++ cached ++ devtools, None).

Definition is_cache (e : Effect) : bool :=
  match e with cache _ _ => true | _ => false end.
End PWA_view.

(** ** [ExpandableSection] *)

Module ExpandableSection.

(** What [sectionId], [title] and [expandedSectionId] may hold; an element
    is known by its identity. *)
Inductive Ident : Type :=
  | id_undefined
  | id_null
  | id_string (s : string)
  | id_element (ref : nat).

#[global] Instance Ident_eq_dec : EqDecision Ident.
Proof. solve_decision. Defined.

Definition truthy_ident (i : Ident) : bool :=
  match i with
  | id_undefined | id_null => false
  | id_string s => negb (String.eqb s "")
  | id_element _ => true
  end.

(** [a || b] *)
Definition or_ident (a b : Ident) : Ident := if truthy_ident a then a else b.

(** Truthiness of a value. *)
Definition truthy_value (v : Value) : bool :=
  match v with
  | undefined | null => false
  | val (JBool b) => b
  | val (JNum n) => negb (n =? 0)%Z
  | val (JStr s) => negb (String.eqb s "")
  | val _ => true
  end.

(** [a || b] *)
Definition or_value (a b : Value) : Value := if truthy_value a then a else b.

(** An icon component. *)
Inductive Icon : Type := ExpandMoreIcon | custom_icon (n : nat).

#[global] Instance Icon_eq_dec : EqDecision Icon.
Proof. solve_decision. Defined.

(** The props the component looks at. *)
Record Props : Type := mkProps {
  expanded : Value;
  defaultExpanded : Value;
  expandedSectionId : Ident;
  sectionId : Ident;
  title : Ident;
  has_onChange : bool;
  has_setExpandedSectionId : bool;
  ExpandIcon : option Icon;
  CollapseIcon : option Icon;
  theme_ExpandIcon : option Icon;
  theme_CollapseIcon : option Icon
}.

(** static getDerivedStateFromProps(props): the new [expanded], or [None]
    for [null], "do not update the state". *)
Definition getDerivedStateFromProps (p : Props) : option Value :=
  match expanded p with
  | undefined =>
      if bool_decide (expandedSectionId p <> id_undefined) then
        let id := or_ident (sectionId p) (title p) in
        Some (val (JBool (bool_decide (expandedSectionId p = id))))
      else None
  | v => Some v
  end.

(** How the state follows the props before each render. *)
Definition derive (p : Props) (state : Value) : Value :=
  default state (getDerivedStateFromProps p).

(** The icons the constructor settles on. *)
Definition expandIcon_of (p : Props) : Icon :=
  default (default ExpandMoreIcon (theme_ExpandIcon p)) (ExpandIcon p).

Definition collapseIcon_of (p : Props) : Icon :=
  default (default (expandIcon_of p) (theme_CollapseIcon p)) (CollapseIcon p).

(** The state the constructor sets. *)
Definition initial_state (p : Props) : Value :=
  or_value (expanded p) (defaultExpanded p).

(** The class [getSummaryClasses] gives the icon. *)
Inductive IconClass : Type := summaryIconWrap | withCollapseIcon.

(** getSummaryClasses(): [result.expandIcon] *)
Definition getSummaryClasses (p : Props) : IconClass :=
  if bool_decide (collapseIcon_of p <> expandIcon_of p)
  then withCollapseIcon else summaryIconWrap.

(** What [onChange] calls. *)
Inductive Call : Type :=
  | props_onChange (expanded : bool)
  | setExpandedSectionId (id : Ident)
  | setState (expanded : bool).

(** onChange = (e, expanded) => ... *)
Definition onChange (p : Props) (expanded : bool) : list Call :=
  (if has_onChange p then [props_onChange expanded] else [])
    ++ (if has_setExpandedSectionId p then
          [setExpandedSectionId
             (if expanded then or_ident (sectionId p) (title p) else id_null)]
        else [setState expanded]).

(** The state once the calls of [onChange] have been carried out. *)
Definition after_calls (calls : list Call) (state : Value) : Value :=
  foldl (fun state c =>
           match c with
           | setState b => val (JBool b)
           | _ => state
           end) state calls.
End ExpandableSection.

(** ** Vocabulary for the statements *)

Module Statements.
(** What [redirectTo] may call: [history.push] or [location.assign]. *)
Definition navigates (e : Event) : Prop :=
  (exists path, e = history_call push [JStr path])
  \/ (exists target, e = location_assign target).

(** A write to the history entry at [path], or the warning. *)
Definition records_at (path : string) (e : Event) : Prop :=
  (exists state, e = history_call replace [JStr path; state])
  \/ e = console_warn PWA.warning.

Definition is_history_call (e : Event) : bool :=
  match e with history_call _ _ => true | _ => false end.

(** A response header store kept as a function. *)
Definition Headers : Type := fromServer_factory.ResponseHeader -> option string.

#[global] Instance ResponseHeader_eq_dec :
  EqDecision fromServer_factory.ResponseHeader.
Proof. solve_decision. Defined.

Definition headers_set (k : fromServer_factory.ResponseHeader) (v : string)
    (r : Headers) : Headers :=
  fun k' => if decide (k' = k) then Some v else r k'.

Definition headers_get (k : fromServer_factory.ResponseHeader) (r : Headers)
  : option string := r k.
End Statements.

Module Statements_fetch.
Section WithPlatform.
Context {W : Type} `{Platform W}.

(** The state in which the response to a request arrives: [fetch] has
    dispatched it, and [flight] has happened since. *)
Definition in_flight (url : string) (o : Options) (flight : W -> W)
    (s : St W) : St W :=
  after flight (fromServer.fetch_dispatch url o s).1.
End WithPlatform.
End Statements_fetch.

(** ** More of the concrete browser *)

Module Demo_view.
Import Demo.

(** A service worker controls the page. *)
Definition ready : Browser -> bool := fun _ => true.

(** No service worker yet. *)
Definition not_ready : Browser -> bool := fun _ => false.

(** A redirect target that is not an absolute url. *)
Definition relative : string := "/newpath".

(** The backend lives under [/api]. *)
Definition under_api : string -> string := fun url => "/api" +:+ url.

(** A response of the server with a surrogate key set, and one without. *)
Definition keyed : Statements.Headers :=
  Statements.headers_set fromServer_factory.SURROGATE_KEY "products"
    (fun _ => None).

(** Links of the page. *)
Definition to_cart : PWA_view.Element :=
  PWA_view.mkElement "A" {[ "href" := "/cart" ]}.

Definition to_cart_reloading : PWA_view.Element :=
  PWA_view.mkElement "A" {[ "href" := "/cart"; "data-reload" := "on" ]}.

(** Paths of this site can be navigated on the client. *)
Definition on_site (href : option string) : bool :=
  match href with
  | Some href => String.prefix "/" href
  | None => false
  end.

(** The shop's first page being mounted, online, in production. *)
Definition mounting : PWA_view.Mounting :=
  PWA_view.mkMounting (Some true) false true false "/products/1" ""
    (val (product 1)) "<html></html>" "production".

(** The same page mounted offline, before any page is known, in an app
    without a router. *)
Definition mounting_offline : PWA_view.Mounting :=
  PWA_view.mkMounting None false false true "/products/1" ""
    undefined "<html></html>" "development".

(** Two sections of an accordion, the first being the open one. *)
Definition details : ExpandableSection.Props :=
  ExpandableSection.mkProps undefined undefined
    (ExpandableSection.id_string "details")
    (ExpandableSection.id_string "details")
    (ExpandableSection.id_string "Details") false true
    None None None None.

Definition reviews : ExpandableSection.Props :=
  ExpandableSection.mkProps undefined undefined
    (ExpandableSection.id_string "details")
    ExpandableSection.id_undefined
    (ExpandableSection.id_string "Reviews") false true
    None None None None.

(** A section on its own, open by default, with a collapse icon from the
    theme. *)
Definition standalone : ExpandableSection.Props :=
  ExpandableSection.mkProps undefined (val (JBool true))
    ExpandableSection.id_undefined ExpandableSection.id_undefined
    (ExpandableSection.id_string "Shipping") false false
    None None None (Some (ExpandableSection.custom_icon 1)).

(** A section controlled by its parent. *)
Definition controlled : ExpandableSection.Props :=
  ExpandableSection.mkProps (val (JBool false)) undefined
    (ExpandableSection.id_string "details")
    ExpandableSection.id_undefined
    (ExpandableSection.id_string "details") false false
    None None None None.

(** A section of an accordion with neither a [sectionId] nor a title. *)
Definition nameless : ExpandableSection.Props :=
  ExpandableSection.mkProps undefined undefined
    ExpandableSection.id_undefined ExpandableSection.id_undefined
    ExpandableSection.id_undefined false true
    None None None None.

(** A is fetched and its response arrives; while A's body is being read B
    is fetched; then A resumes. *)
Definition b_while_a_is_read : list (Session.Action (W := Browser)) :=
  [Session.Fetch "/products/1.json" plain false;
   Session.Arrive 1 (inr (ok (product 1)));
   Session.Fetch "/products/2.json" plain false;
   Session.Resume 1].

(** The same, and then B's response arrives and B resumes. *)
Definition b_after_a_is_read : list (Session.Action (W := Browser)) :=
  b_while_a_is_read
    ++ [Session.Arrive 2 (inr (ok (product 2))); Session.Resume 2].

(** A body that is an array. *)
Definition listing : JSON := JArr [product 1; product 2].
End Demo_view.

(** * Properties *)

(** Unfolds the monad down to functions on states. *)
Ltac run :=
  unfold bind, try_catch, ret, throw, gets, eval, await, interleave, emit,
    call in *; simpl in *.

Section MonadFacts.
Context {W : Type} `{Platform W}.

Lemma call_trace (e : Event) (s : St W) :
  trace (call e s).1 = trace s ++ [e].
Proof. unfold call. by destruct (ext e (world s)). Qed.

Lemma call_returns (e : Event) (s : St W) :
  (ext e (world s)).2 = None ->
  call e s = (mkSt (ext e (world s)).1 (trace s ++ [e]), inr tt).
Proof. unfold call. destruct (ext e (world s)); simpl. by intros ->. Qed.

End MonadFacts.

Module fromServer_facts.
Import fromServer.
Section WithPlatform.
Context {W : Type} `{Platform W}.

(** *** [redirectTo] *)

Lemma redirectTo_falsy (url : option string) (s : St W) :
  truthy url = false -> redirectTo url s = (s, inl no_location).
Proof. unfold redirectTo. by intros ->. Qed.

Lemma redirectTo_parsed (url : string) (parsed : URL) (s : St W) :
  url <> "" ->
  new_URL url = inr parsed ->
  redirectTo (Some url) s =
    if String.eqb (hostname parsed) (hostname (window_location (world s)))
    then call (history_call push [JStr (pathname parsed +:+ search parsed)]) s
    else call (location_assign url) s.
Proof.
  intros Hurl Hparse. unfold redirectTo, truthy.
  apply String.eqb_neq in Hurl. rewrite Hurl. simpl.
  unfold bind, eval, gets. rewrite Hparse. simpl.
  by destruct (String.eqb (hostname parsed) _).
Qed.

(** [redirectTo] never resumes prefetching. *)
Lemma redirectTo_trace (url : option string) (s : St W) :
  exists added, trace (redirectTo url s).1 = trace s ++ added
                /\ resumePrefetches ∉ added.
Proof.
  unfold redirectTo. destruct (truthy url).
  - run. destruct (new_URL _) as [e|parsed]; simpl.
    + exists []. rewrite app_nil_r. split; [done|]. apply not_elem_of_nil.
    + destruct (String.eqb _ _); eexists [_];
        (split; [apply call_trace|]);
        intros Hin; apply list_elem_of_singleton in Hin; discriminate.
  - exists []. simpl. rewrite app_nil_r. split; [done|]. apply not_elem_of_nil.
Qed.

(** *** The pieces of [fetch] *)

Lemma fetch_settle_unfold (href0 : string) (orig : bool)
    (outcome : exn + Response) (reading : W -> W) (s : St W) :
  fetch_settle href0 orig outcome reading s
    = fetch_resume href0 (fetch_arrive orig outcome s).2
        (after reading (fetch_arrive orig outcome s).1).
Proof. unfold fetch_settle. by destruct (fetch_arrive orig outcome s). Qed.

Lemma fetch_arrive_response (orig : bool) (response : Response) (s : St W) :
  fetch_arrive orig (inr response) s = fetch_then orig response s.
Proof.
  unfold fetch_arrive, bind, await.
  by destruct (fetch_then orig response s) as [s1 [e|v]].
Qed.

Lemma fetch_then_redirected (orig : bool) (response : Response) (s : St W) :
  redirected response = true ->
  truthy (url response) = false ->
  fetch_then orig response s = (s, inl no_location).
Proof.
  intros Hred Hurl. unfold fetch_then, bind. rewrite Hred.
  by rewrite (redirectTo_falsy _ _ Hurl).
Qed.

Lemma fetch_then_no_content (orig : bool) (response : Response) (s : St W) :
  redirected response = false ->
  (ext resumePrefetches (world s)).2 = None ->
  status response = 204%Z ->
  fetch_then orig response s
    = (mkSt (ext resumePrefetches (world s)).1
            (trace s ++ [resumePrefetches]), inr null).
Proof.
  intros Hred Hres Hst. unfold fetch_then, bind. rewrite Hred, Hst.
  by rewrite (call_returns _ _ Hres).
Qed.

Lemma fetch_then_body (orig : bool) (response : Response) (j : JSON)
    (s : St W) :
  redirected response = false ->
  (ext resumePrefetches (world s)).2 = None ->
  status response <> 204%Z ->
  json response = inr j ->
  fetch_then orig response s
    = (mkSt (ext resumePrefetches (world s)).1
            (trace s ++ [resumePrefetches]), inr (val j)).
Proof.
  intros Hred Hres Hst Hjson. apply Z.eqb_neq in Hst.
  unfold fetch_then, bind. rewrite Hred, Hst, Hjson.
  by rewrite (call_returns _ _ Hres).
Qed.

(** A value [fetch_then] yields other than [undefined] and [null] is the
    parsed body of a response that is not a redirect. *)
Lemma fetch_then_value (orig : bool) (response : Response) (s s' : St W)
    (j : JSON) :
  fetch_then orig response s = (s', inr (val j)) ->
  j <> JNull ->
  redirected response = false /\ json response = inr j.
Proof.
  unfold fetch_then. intros Hrun Hj.
  destruct (redirected response).
  - unfold bind in Hrun.
    destruct (redirectTo _ s) as [s1 [e|[]]]; [done|].
    destruct orig; run; by simplify_eq.
  - split; [done|]. unfold bind in Hrun.
    destruct (call resumePrefetches s) as [s1 [e|[]]]; [done|].
    destruct (status response =? 204)%Z; run; [by simplify_eq|].
    destruct (json response); by simplify_eq.
Qed.

Lemma fetch_then_trace (orig : bool) (response : Response) (s : St W) :
  exists added,
    trace (fetch_then orig response s).1 = trace s ++ added
    /\ if redirected response then resumePrefetches ∉ added
       else added = [resumePrefetches].
Proof.
  unfold fetch_then. destruct (redirected response).
  - destruct (redirectTo_trace (url response) s) as (added & Htr & Hin).
    unfold bind.
    destruct (redirectTo (url response) s) as [s1 [e|[]]]; simpl in Htr.
    { by exists added. }
    destruct orig; run.
    + exists (added ++ [set_redirected]). rewrite Htr, app_assoc.
      split; [done|]. intros [?|Hin']%elem_of_app; [done|].
      apply list_elem_of_singleton in Hin'. discriminate.
    + by exists added.
  - exists [resumePrefetches]. split; [|done]. unfold bind.
    pose proof (call_trace resumePrefetches s) as Htr.
    destruct (call resumePrefetches s) as [s1 [e|[]]]; simpl in Htr; [done|].
    destruct (status response =? 204)%Z; run; [done|].
    by destruct (json response).
Qed.

(** What [fetch_return] yields, given the href the page has now. *)
Lemma fetch_return_run (href0 : string) (result : Value) (s : St W) :
  fetch_return href0 result s
    = (s, inr (match result with
               | undefined | null => undefined
               | val j =>
                   if String.eqb (href (window_location (world s))) href0
                   then val (spread_loading j) else undefined
               end)).
Proof.
  unfold fetch_return. destruct result as [|[]]; run; try done;
    by destruct (String.eqb _ href0).
Qed.

Lemma fetch_resume_value (href0 : string) (result : Value) (s : St W) :
  fetch_resume href0 (inr result) s = fetch_return href0 result s.
Proof.
  unfold fetch_resume, try_catch, bind, await.
  by rewrite fetch_return_run.
Qed.

Lemma fetch_resume_rejected (href0 : string) (e : exn) (s : St W) :
  fetch_resume href0 (inl e) s = fetch_catch e s.
Proof. reflexivity. Qed.

Lemma fetch_catch_state (e : exn) (s : St W) : (fetch_catch e s).1 = s.
Proof. unfold fetch_catch. by destruct (StaleResponseError_is e). Qed.

Lemma fetch_catch_nullish (e : exn) (s s' : St W) (v : Value) :
  fetch_catch e s = (s', inr v) -> v = null /\ s' = s.
Proof.
  unfold fetch_catch. destruct (StaleResponseError_is e); run; naive_solver.
Qed.

(** Resuming changes nothing in the browser and makes no call. *)
Lemma fetch_resume_state (href0 : string) (promise : exn + Value) (s : St W) :
  (fetch_resume href0 promise s).1 = s.
Proof.
  destruct promise as [e|result].
  - apply fetch_catch_state.
  - by rewrite fetch_resume_value, fetch_return_run.
Qed.

Lemma fetch_resume_moved (href0 : string) (promise : exn + Value)
    (s s' : St W) (v : Value) :
  fetch_resume href0 promise s = (s', inr v) ->
  href (window_location (world s')) <> href0 ->
  nullish v = true.
Proof.
  intros Hrun Hmoved.
  pose proof (fetch_resume_state href0 promise s) as Hst.
  rewrite Hrun in Hst. simpl in Hst. subst s'.
  destruct promise as [e|result].
  - apply fetch_catch_nullish in Hrun as [-> _]. done.
  - rewrite fetch_resume_value, fetch_return_run in Hrun.
    apply String.eqb_neq in Hmoved. rewrite Hmoved in Hrun.
    injection Hrun as <-. by destruct result as [|[]].
Qed.

(** A value [fetch] resolves with other than [undefined] and [null] is the
    spread of what the awaited promise was fulfilled with. *)
Lemma fetch_resume_patch (href0 : string) (promise : exn + Value)
    (s s' : St W) (v : Value) :
  fetch_resume href0 promise s = (s', inr v) ->
  nullish v = false ->
  exists j, promise = inr (val j) /\ j <> JNull /\ v = val (spread_loading j).
Proof.
  intros Hrun Hv. destruct promise as [e|result].
  - apply fetch_catch_nullish in Hrun as [-> _]. done.
  - rewrite fetch_resume_value, fetch_return_run in Hrun.
    injection Hrun as _ <-.
    destruct result as [|j]; [done|]. exists j.
    destruct j; try done;
      (destruct (String.eqb _ href0); [by repeat split|done]).
Qed.


Lemma fetch_settle_response (href0 : string) (orig : bool)
    (response : Response) (reading : W -> W) (s : St W) :
  fetch_settle href0 orig (inr response) reading s
    = fetch_resume href0 (fetch_then orig response s).2
        (after reading (fetch_then orig response s).1).
Proof. by rewrite fetch_settle_unfold, fetch_arrive_response. Qed.

Lemma fetch_settle_no_content (href0 : string) (orig : bool)
    (response : Response) (reading : W -> W) (s : St W) :
  redirected response = false ->
  (ext resumePrefetches (world s)).2 = None ->
  status response = 204%Z ->
  fetch_settle href0 orig (inr response) reading s
    = (resumed reading s, inr undefined).
Proof.
  intros Hred Hres Hst.
  rewrite fetch_settle_response, (fetch_then_no_content _ _ _ Hred Hres Hst).
  simpl. by rewrite fetch_resume_value, fetch_return_run.
Qed.

Lemma fetch_settle_body (href0 : string) (orig : bool)
    (response : Response) (j : JSON) (reading : W -> W) (s : St W) :
  redirected response = false ->
  (ext resumePrefetches (world s)).2 = None ->
  status response <> 204%Z ->
  json response = inr j ->
  fetch_settle href0 orig (inr response) reading s
    = (resumed reading s,
       inr (match j with
            | JNull => undefined
            | _ =>
                if String.eqb
                     (href (window_location (world (resumed reading s))))
                     href0
                then val (spread_loading j) else undefined
            end)).
Proof.
  intros Hred Hres Hst Hjson.
  rewrite fetch_settle_response,
    (fetch_then_body _ _ _ _ Hred Hres Hst Hjson).
  simpl. by rewrite fetch_resume_value, fetch_return_run.
Qed.

Lemma fetch_dispatch_run (url : string) (o : Options) (s : St W) :
  let w1 := (ext abortPrefetches (world s)).1 in
  let request := doFetch url (request_init o (getAPIVersion w1)) in
  fetch_dispatch url o s =
    match (ext abortPrefetches (world s)).2 with
    | Some e => (mkSt w1 (trace s ++ [abortPrefetches]), inl e)
    | None =>
        (mkSt w1 ((trace s ++ [abortPrefetches]) ++ [request]),
         inr (href (window_location w1)))
    end.
Proof.
  unfold fetch_dispatch. run. by destruct (ext _ _) as [w [e|]].
Qed.

Lemma fetch_settle_trace (href0 : string) (orig : bool)
    (outcome : exn + Response) (reading : W -> W) (s : St W) :
  exists added,
    trace (fetch_settle href0 orig outcome reading s).1 = trace s ++ added
    /\ match outcome with
       | inr response =>
           if redirected response then resumePrefetches ∉ added
           else added = [resumePrefetches]
       | inl _ => added = []
       end.
Proof.
  rewrite fetch_settle_unfold, fetch_resume_state. simpl.
  destruct outcome as [e|response].
  - exists []. by rewrite app_nil_r.
  - rewrite fetch_arrive_response. apply fetch_then_trace.
Qed.

Lemma spread_loading_fields (j : JSON) :
  exists fields,
    spread_loading j = JObj fields
    /\ fields !! "loading"
       = Some (default (JBool false) (own_properties j !! "loading"))
    /\ (forall k x, own_properties j !! k = Some x -> fields !! k = Some x)
    /\ (forall k, k <> "loading" -> fields !! k = own_properties j !! k).
Proof.
  eexists. split; [reflexivity|]. repeat split.
  - rewrite lookup_union, lookup_singleton_eq.
    by destruct (own_properties j !! "loading").
  - intros k x Hk. by apply lookup_union_Some_l.
  - intros k Hk. rewrite lookup_union, lookup_singleton_ne by done.
    by destruct (own_properties j !! k).
Qed.

(** *** C6 *)

(** C6: a redirected response without a location (absent or empty url)
    makes [redirectTo] throw the fatal error, before it touches the
    history or the location; [fetch] does not catch it, makes no further
    call, and rejects with that same error. *)
Theorem redirect_without_location_throws
    (url : option string) (st : Z) (body : exn + JSON) (href0 : string)
    (originalResponse : bool) (reading : W -> W) (s : St W) :
  truthy url = false ->
  redirectTo url s = (s, inl no_location)
  /\ fetch_settle href0 originalResponse
       (inr (mkResponse true url st body)) reading s
     = (after reading s, inl no_location).
Proof.
  intros Hurl. split; first by apply redirectTo_falsy.
  rewrite fetch_settle_response.
  by rewrite (fetch_then_redirected originalResponse
                (mkResponse true url st body) s eq_refl Hurl).
Qed.

(** *** C3 *)

(** C3 (amended): the redirect handler compares host names, not origins.
    For a redirect target that parses, when its host name is that of the
    page the only thing [redirectTo] does is push path + search on the
    history, and otherwise the only thing it does is [location.assign]
    the target.  A same-origin target has the same host name, so it is
    pushed and the page is never reloaded. *)
Theorem redirect_by_hostname (url : string) (parsed : URL) (s : St W) :
  url <> "" ->
  new_URL url = inr parsed ->
  let here := window_location (world s) in
  let events := trace (redirectTo (Some url) s).1 in
  (hostname parsed = hostname here ->
     events = trace s
               ++ [history_call push [JStr (pathname parsed +:+ search parsed)]])
  /\ (hostname parsed <> hostname here ->
       events = trace s ++ [location_assign url])
  /\ (same_origin parsed here = true ->
       events = trace s
                 ++ [history_call push [JStr (pathname parsed +:+ search parsed)]]
       /\ forall added, events = trace s ++ added ->
                        location_assign url ∉ added).
Proof.
  intros Hurl Hparse here events. subst events.
  rewrite (redirectTo_parsed _ _ _ Hurl Hparse). fold here.
  assert (Hpush : hostname parsed = hostname here ->
            trace ((if String.eqb (hostname parsed) (hostname here)
                    then call (history_call push
                                 [JStr (pathname parsed +:+ search parsed)]) s
                    else call (location_assign url) s).1)
            = trace s ++ [history_call push
                            [JStr (pathname parsed +:+ search parsed)]]).
  { intros Heq. apply String.eqb_eq in Heq. rewrite Heq.
    apply call_trace. }
  split; [exact Hpush|]. split.
  - intros Hne. apply String.eqb_neq in Hne. rewrite Hne.
    apply call_trace.
  - unfold same_origin. intros Hso.
    apply andb_prop in Hso as [Hso _]. apply andb_prop in Hso as [_ Hhost].
    apply String.eqb_eq in Hhost. split; first by apply Hpush.
    rewrite (Hpush Hhost). intros added Hadded.
    apply app_inv_head in Hadded as <-.
    intros Hin. apply list_elem_of_singleton in Hin. discriminate.
Qed.

(** *** C2 *)

(** C2 (amended): when [fetch] resumes and [location.href] is no longer
    what it was at dispatch, whatever the call resolves with is nullish:
    no patch is handed back, whether or not a newer request exists.
    Conversely, when the href is unchanged and the body parsed to a value
    other than [null], the call resolves with the patch
    [{ loading: false, ...body }]. *)
Theorem moved_location_discards (href0 : string) (orig : bool)
    (outcome : exn + Response) (reading : W -> W) (s : St W) :
  (forall s' v,
      fetch_settle href0 orig outcome reading s = (s', inr v) ->
      href (window_location (world s')) <> href0 ->
      nullish v = true)
  /\ (forall response j,
        outcome = inr response ->
        redirected response = false ->
        (ext resumePrefetches (world s)).2 = None ->
        status response <> 204%Z ->
        json response = inr j ->
        j <> JNull ->
        href (window_location (world (resumed reading s))) = href0 ->
        fetch_settle href0 orig outcome reading s
          = (resumed reading s, inr (val (spread_loading j)))).
Proof.
  split.
  - intros s' v Hrun Hmoved. rewrite fetch_settle_unfold in Hrun.
    by eapply fetch_resume_moved.
  - intros response j -> Hred Hres Hst Hjson Hj Hhref.
    rewrite (fetch_settle_body _ _ _ j _ _ Hred Hres Hst Hjson).
    apply String.eqb_eq in Hhref. rewrite Hhref. by destruct j.
Qed.

(** *** C4 *)

(** C4 (amended): for a response with status 204 that is not a redirect,
    the [.then] callback returns [null], the check [result != null]
    fails, and the call falls off the end of the function: it resolves
    with [undefined] -- neither [null] nor an empty object -- whether or
    not the location has changed. *)
Theorem no_content_resolves_undefined (href0 : string) (orig : bool)
    (response : Response) (reading : W -> W) (s : St W) :
  redirected response = false ->
  status response = 204%Z ->
  (ext resumePrefetches (world s)).2 = None ->
  fetch_then orig response s
    = (mkSt (ext resumePrefetches (world s)).1
            (trace s ++ [resumePrefetches]), inr null)
  /\ fetch_settle href0 orig (inr response) reading s
     = (resumed reading s, inr undefined).
Proof.
  intros Hred Hst Hres. split.
  - by apply fetch_then_no_content.
  - by apply fetch_settle_no_content.
Qed.

(** *** C5 *)


(** *** C10 *)

Lemma own_properties_array (items : list JSON) (i : nat) (x : JSON) :
  items !! i = Some x -> own_properties (JArr items) !! pretty i = Some x.
Proof.
  intros Hi. unfold own_properties. apply elem_of_list_to_map_1.
  - rewrite fmap_imap.
    rewrite (imap_ext _ (fun i _ => pretty i)) by done.
    rewrite imap_seq_0. apply NoDup_fmap; [apply _|apply NoDup_seq].
  - apply elem_of_lookup_imap. by exists i, x.
Qed.

Lemma spread_loading_object (body : gmap string JSON) :
  exists fields,
    spread_loading (JObj body) = JObj fields
    /\ (forall k x, body !! k = Some x -> fields !! k = Some x)
    /\ fields !! "loading" = Some (default (JBool false) (body !! "loading"))
    /\ (forall k, k <> "loading" -> fields !! k = body !! k).
Proof.
  exists (body ∪ {[ "loading" := JBool false ]}).
  split; [reflexivity|]. split; [|split].
  - intros k x Hk. by apply lookup_union_Some_l.
  - rewrite lookup_union, lookup_singleton_eq.
    by destruct (body !! "loading").
  - intros k Hk. rewrite lookup_union, lookup_singleton_ne by done.
    by destruct (body !! k).
Qed.

(** C10 (amended): a patch [fetch] resolves with is
    [{ loading: false, ...body }] for the parsed body of the response: it
    has the field [loading], which is [false] unless the body has a
    [loading] of its own, in which case it is the body's; every field of
    an object body is in it unchanged, and it has no other field than
    these and [loading]; every item of an array body is in it under its
    index.  With the location unchanged and a body other than [null],
    such a patch is what the call resolves with. *)
Theorem patch_defaults_loading (href0 : string) (orig : bool)
    (outcome : exn + Response) (reading : W -> W) (s : St W) :
  (forall s' v,
      fetch_settle href0 orig outcome reading s = (s', inr v) ->
      nullish v = false ->
      exists response j fields,
        outcome = inr response /\ json response = inr j
        /\ v = val (JObj fields)
        /\ fields !! "loading"
           = Some (default (JBool false) (own_properties j !! "loading"))
        /\ (forall k x, own_properties j !! k = Some x -> fields !! k = Some x)
        /\ (forall k, k <> "loading" -> fields !! k = own_properties j !! k)
        /\ (forall body,
              j = JObj body ->
              (forall k x, body !! k = Some x -> fields !! k = Some x)
              /\ fields !! "loading"
                 = Some (default (JBool false) (body !! "loading"))
              /\ (forall k, k <> "loading" -> fields !! k = body !! k))
        /\ (forall items i x,
              j = JArr items -> items !! i = Some x ->
              fields !! pretty i = Some x))
  /\ (forall response j,
        outcome = inr response ->
        redirected response = false ->
        (ext resumePrefetches (world s)).2 = None ->
        status response <> 204%Z ->
        json response = inr j ->
        j <> JNull ->
        href (window_location (world (resumed reading s))) = href0 ->
        exists fields,
          fetch_settle href0 orig outcome reading s
            = (resumed reading s, inr (val (JObj fields)))
          /\ fields !! "loading"
             = Some (default (JBool false) (own_properties j !! "loading"))
          /\ (forall body,
                j = JObj body ->
                (forall k x, body !! k = Some x -> fields !! k = Some x)
                /\ fields !! "loading"
                   = Some (default (JBool false) (body !! "loading"))
                /\ (forall k, k <> "loading" -> fields !! k = body !! k))
          /\ (forall items i x,
                j = JArr items -> items !! i = Some x ->
                fields !! pretty i = Some x)).
Proof.
  assert (Hshape : forall j fields,
            spread_loading j = JObj fields ->
            (forall body,
                j = JObj body ->
                (forall k x, body !! k = Some x -> fields !! k = Some x)
                /\ fields !! "loading"
                   = Some (default (JBool false) (body !! "loading"))
                /\ (forall k, k <> "loading" -> fields !! k = body !! k))
            /\ (forall items i x,
                  j = JArr items -> items !! i = Some x ->
                  fields !! pretty i = Some x)).
  { intros j fields Hspread. split.
    - intros body ->.
      destruct (spread_loading_object body) as (fields' & Hfields & Hbody).
      rewrite Hspread in Hfields. by injection Hfields as ->.
    - intros items i x -> Hi.
      destruct (spread_loading_fields (JArr items))
        as (fields' & Hfields & _ & Hk & _).
      rewrite Hspread in Hfields. injection Hfields as ->.
      by apply Hk, own_properties_array. }
  split.
  - intros s' v Hrun Hv. rewrite fetch_settle_unfold in Hrun.
    destruct (fetch_resume_patch _ _ _ _ _ Hrun Hv) as (j & Hpromise & Hj & ->).
    destruct outcome as [e|response].
    { by rewrite (surjective_pairing (fetch_arrive orig (inl e) s)) in Hpromise. }
    rewrite fetch_arrive_response in Hpromise.
    destruct (fetch_then orig response s) as [s1 r] eqn:Hthen.
    simpl in Hpromise. subst r.
    destruct (fetch_then_value _ _ _ _ _ Hthen Hj) as [_ Hjson].
    destruct (spread_loading_fields j) as (fields & Hspread & Hl & Hk & Hk').
    destruct (Hshape j fields Hspread) as [Hobj Harr].
    rewrite Hspread. by exists response, j, fields.
  - intros response j -> Hred Hres Hst Hjson Hj Hhref.
    destruct (spread_loading_fields j) as (fields & Hspread & Hl & _).
    destruct (Hshape j fields Hspread) as [Hobj Harr].
    exists fields. split; [|done].
    rewrite (fetch_settle_body _ _ _ j _ _ Hred Hres Hst Hjson).
    apply String.eqb_eq in Hhref. rewrite Hhref, <- Hspread. by destruct j.
Qed.

(** *** C7 *)

(** C7 (amended): [fetch] first calls [abortPrefetches] and only then
    hands the request to [doFetch] (not at all if aborting throws).
    Nothing resumes prefetching at that point.  [resumePrefetches] is
    called when the response has arrived and is not a redirect, as the
    first thing [fetch] does with it; on the redirect path, and when the
    request is rejected, [fetch] never calls it. *)
Theorem prefetches_aborted_first_resumed_on_response
    (url : string) (o : Options) (orig : bool) (flight : W -> W)
    (outcome : exn + Response) (reading : W -> W) (s : St W) :
  let w1 := (ext abortPrefetches (world s)).1 in
  let request := doFetch url (request_init o (getAPIVersion w1)) in
  match (ext abortPrefetches (world s)).2 with
  | Some e =>
      fetch url o orig flight outcome reading s
        = (mkSt w1 (trace s ++ [abortPrefetches]), inl e)
  | None =>
      trace (fetch_dispatch url o s).1
        = trace s ++ [abortPrefetches; request]
      /\ exists added,
          trace (fetch url o orig flight outcome reading s).1
            = trace s ++ [abortPrefetches; request] ++ added
          /\ match outcome with
             | inr response =>
                 if redirected response then resumePrefetches ∉ added
                 else added = [resumePrefetches]
             | inl _ => added = []
             end
  end.
Proof.
  intros w1 request.
  pose proof (fetch_dispatch_run url o s) as Hd. cbv zeta in Hd.
  fold w1 in Hd. fold request in Hd.
  destruct (ext abortPrefetches (world s)).2 as [e|].
  { unfold fetch, bind. by rewrite Hd. }
  split; [by rewrite Hd, <- app_assoc|].
  destruct (fetch_settle_trace (href (window_location w1)) orig outcome
              reading (mkSt (flight w1)
                            ((trace s ++ [abortPrefetches]) ++ [request])))
    as (added & Htr & Hadded).
  exists added. split; [|done].
  unfold fetch. unfold bind at 1. rewrite Hd.
  unfold bind, interleave, after. simpl in *. rewrite Htr.
  by rewrite <- !app_assoc.
Qed.
End WithPlatform.
End fromServer_facts.

Module PWA_facts.
Import PWA.
Section WithPlatform.
Context {W : Type} `{Platform W}.

(** [recordStateOnChange] leaves [replace] alone. *)
Lemma patched_replace (history : History) :
  patched history replace = history replace.
Proof. reflexivity. Qed.

Lemma patched_recorded (history : History) (m : Method) :
  m ∈ recorded_methods ->
  patched history m = fun args => recordState history ;; history m args.
Proof.
  unfold recorded_methods. rewrite !elem_of_cons, elem_of_nil.
  intros [->|[->|[->|[->|[]]]]]; reflexivity.
Qed.

Lemma write_snapshot_trace (path : string) (snapshot : JSON) (s : St W) :
  app_toJSON (world s) = inr snapshot ->
  write_snapshot browser_history path s
    = call (history_call replace [JStr path; snapshot]) s.
Proof.
  intros Hsnap. unfold write_snapshot, bind, eval. by rewrite Hsnap.
Qed.

Lemma recordState_recorded (snapshot : JSON) (s : St W) :
  let attempt :=
    history_call replace
      [JStr (entry_path (history_location (world s))); snapshot] in
  app_toJSON (world s) = inr snapshot ->
  (ext attempt (world s)).2 = None ->
  recordState browser_history s
    = (mkSt (ext attempt (world s)).1 (trace s ++ [attempt]), inr tt).
Proof.
  intros attempt Hsnap Hok. unfold recordState, bind, gets, try_catch.
  rewrite (write_snapshot_trace _ _ _ Hsnap).
  fold attempt. by rewrite (call_returns _ _ Hok).
Qed.

Lemma recordState_starts (snapshot : JSON) (s : St W) :
  app_toJSON (world s) = inr snapshot ->
  exists rest,
    trace (recordState browser_history s).1
      = trace s
          ++ history_call replace
               [JStr (entry_path (history_location (world s))); snapshot]
          :: rest.
Proof.
  intros Hsnap. unfold recordState, bind, gets, try_catch.
  rewrite (write_snapshot_trace _ _ _ Hsnap).
  set (attempt := history_call replace _).
  pose proof (call_trace attempt s) as Htr.
  destruct (call attempt s) as [s1 [e|[]]]; simpl in Htr.
  - unfold bind, browser_history.
    set (fallback := history_call replace [_; JNull]).
    pose proof (call_trace fallback s1) as Htr'.
    destruct (call fallback s1) as [s2 [e'|[]]]; simpl in Htr'.
    + exists [fallback]. simpl. by rewrite Htr', Htr, <- app_assoc.
    + exists [fallback; console_warn warning]. unfold emit. simpl.
      by rewrite Htr', Htr, <- !app_assoc.
  - exists []. by simpl.
Qed.

(** ** C8 *)

(** C8 (amended): when the attempt to record the app state fails -- the
    snapshot cannot be taken or [history.replace] throws -- [recordState]
    writes [null] as the state of the same entry; provided that second
    write succeeds, it then logs the warning and returns normally, so
    that the wrapped history method goes on to call the original. *)
Theorem failed_record_falls_back_to_null
    (m : Method) (args : list JSON) (s s1 : St W) (e : exn) :
  let path := entry_path (history_location (world s)) in
  let fallback := history_call replace [JStr path; JNull] in
  let s2 := mkSt (ext fallback (world s1)).1
                 (trace s1 ++ [fallback; console_warn warning]) in
  write_snapshot browser_history path s = (s1, inl e) ->
  (ext fallback (world s1)).2 = None ->
  recordState browser_history s = (s2, inr tt)
  /\ (m ∈ recorded_methods ->
      patched browser_history m args s = call (history_call m args) s2)
  /\ (forall snapshot,
        app_toJSON (world s) = inr snapshot ->
        trace s1 = trace s ++ [history_call replace [JStr path; snapshot]]).
Proof.
  intros path fallback s2 Hfail Hok.
  assert (Hrec : recordState browser_history s = (s2, inr tt)).
  { unfold recordState, bind, gets, try_catch. fold path. rewrite Hfail.
    unfold browser_history at 1. fold fallback.
    rewrite (call_returns _ _ Hok). unfold emit. subst s2. simpl.
    by rewrite <- app_assoc. }
  split; [done|]. split.
  - intros Hm. rewrite (patched_recorded _ _ Hm). unfold bind.
    by rewrite Hrec.
  - intros snapshot Hsnap.
    rewrite (write_snapshot_trace _ _ _ Hsnap) in Hfail.
    pose proof (call_trace (history_call replace [JStr path; snapshot]) s)
      as Htr.
    by rewrite Hfail in Htr.
Qed.

(** ** C9 *)

(** C9 (amended): the wrapped methods are [push], [go], [goBack] and
    [goForward].  Calling one of them first runs [recordState], whose
    first call into the history writes the snapshot of the app state to
    the current entry, and only when [recordState] has returned calls the
    original method; if recording throws, the original is not called.
    [replace] is not wrapped: it is the original method. *)
Theorem state_recorded_before_delegating
    (m : Method) (args : list JSON) (snapshot : JSON) (s : St W) :
  m ∈ recorded_methods ->
  app_toJSON (world s) = inr snapshot ->
  let path := entry_path (history_location (world s)) in
  let result := patched browser_history m args s in
  (exists rest,
      trace result.1
        = trace s ++ history_call replace [JStr path; snapshot] :: rest)
  /\ (forall s1,
        recordState browser_history s = (s1, inr tt) ->
        result = call (history_call m args) s1
        /\ trace result.1 = trace s1 ++ [history_call m args])
  /\ (forall s1 e,
        recordState browser_history s = (s1, inl e) ->
        result = (s1, inl e))
  /\ patched browser_history replace = browser_history replace.
Proof.
  intros Hm Hsnap path result. subst result.
  rewrite (patched_recorded _ _ Hm).
  destruct (recordState_starts snapshot s Hsnap) as (rest & Hstart).
  fold path in Hstart. unfold bind.
  destruct (recordState browser_history s) as [s1 [e|[]]] eqn:Hrec;
    simpl in Hstart.
  - split; [by exists rest|]. by repeat split.
  - split.
    + exists (rest ++ [history_call m args]).
      unfold browser_history. rewrite call_trace, Hstart.
      by rewrite <- app_assoc.
    + repeat split; try done; simplify_eq; [done|apply call_trace].
Qed.
End WithPlatform.
End PWA_facts.

Module Session_facts.
Import Session.
Section WithPlatform.
Context {W : Type} `{Platform W}.

Lemma run_app (p : @Page W) (first second : list Action) :
  run p (first ++ second) = run (run p first) second.
Proof. apply foldl_app. Qed.

Lemma run_cons (p : @Page W) (a : Action) (actions : list Action) :
  run p (a :: actions) = run (step p a) actions.
Proof. reflexivity. Qed.

(** *** Single steps *)

Lemma step_counter (p : @Page W) (a : Action) :
  is_fetch a = false -> counter (step p a) = counter p.
Proof.
  destruct a as [url o orig|id outcome|id|f]; simpl; try done; intros _.
  - destruct (suspended p !! id) as [[href0 orig [r|]]|]; try done.
    by destruct (fromServer.fetch_arrive _ _ _).
  - destruct (suspended p !! id) as [[href0 orig [r|]]|]; try done.
    by destruct (fromServer.fetch_resume _ _ _).
Qed.

(** The request of a superseded call settles: the call observes the stale
    signal, and nothing else happens. *)
Lemma arrive_superseded (p : @Page W) (id : nat) (href0 : string) (orig : bool)
    (outcome : exn + Response) :
  suspended p !! id = Some (mkSuspended href0 orig None) ->
  id <> counter p ->
  step p (Arrive id outcome)
    = mkPage (browser p) (counter p)
             (<[id := mkSuspended href0 orig (Some (inl StaleResponseError))]>
                (suspended p))
             (applied p).
Proof.
  intros Hc Hid. simpl. rewrite Hc.
  unfold fetchLatest.settle. by rewrite decide_False.
Qed.

(** A call that observed the stale signal resumes: it resolves with
    [null], which no caller applies. *)
Lemma resume_stale (p : @Page W) (id : nat) (href0 : string) (orig : bool) :
  suspended p !! id
    = Some (mkSuspended href0 orig (Some (inl StaleResponseError))) ->
  step p (Resume id)
    = mkPage (browser p) (counter p) (delete id (suspended p)) (applied p).
Proof.
  intros Hc. simpl. rewrite Hc. simpl. by rewrite app_nil_r.
Qed.

Lemma handed_back_elem (id id' : nat) (r : exn + Value) (v : Value) :
  (id', v) ∈ handed_back id r -> id' = id /\ r = inr v /\ nullish v = false.
Proof.
  unfold handed_back. destruct r as [e|v']; [by intros ?%elem_of_nil|].
  destruct (nullish v') eqn:Hv; [by intros ?%elem_of_nil|].
  intros [= -> ->]%list_elem_of_singleton. done.
Qed.

(** *** Calls made, none settled *)

Lemma step_all_in_flight (p : @Page W) (a : Action) :
  is_response a = false -> all_in_flight p -> all_in_flight (step p a).
Proof.
  intros Ha [Happlied Hpromise].
  destruct a as [url o orig|id outcome|id|f]; simpl; try done.
  destruct (fromServer.fetch_dispatch url o (browser p)) as [s [e|href0]];
    split; simpl; try done.
  intros id c [[_ <-]|[_ Hc]]%lookup_insert_Some; [done|by eapply Hpromise].
Qed.

Lemma run_all_in_flight (calls : list Action) (p : @Page W) :
  Forall (fun a => is_response a = false) calls ->
  all_in_flight p -> all_in_flight (run p calls).
Proof.
  intros Hcalls. revert p.
  induction Hcalls as [|a calls Ha _ IH]; intros p Hp; [done|].
  simpl. apply IH. by apply step_all_in_flight.
Qed.

Lemma all_in_flight_only_latest (p : @Page W) :
  all_in_flight p -> only_latest (counter p) p.
Proof.
  intros [Happlied Hpromise]. split; [done|]. split.
  - intros id v. rewrite Happlied. by intros ?%elem_of_nil.
  - intros id href0 orig v Hc. by apply Hpromise in Hc.
Qed.

(** *** Requests settling, no further call *)

Lemma step_only_latest (n : nat) (p : @Page W) (a : Action) :
  is_fetch a = false -> only_latest n p -> only_latest n (step p a).
Proof.
  intros Ha (Hn & Happlied & Hpromise).
  split; [by rewrite step_counter|].
  destruct a as [url o orig|id outcome|id|f]; simpl; try done.
  - destruct (suspended p !! id) as [[href0 orig [r|]]|] eqn:Hc; try done.
    destruct (fromServer.fetch_arrive _ _ _) as [s r] eqn:Harrive. simpl.
    split; [done|]. intros id' href' orig' v Hc' Hv.
    apply lookup_insert_Some in Hc' as [[<- [= -> -> ->]]|[_ Hc']];
      [|by eapply Hpromise].
    destruct (decide (id = counter p)) as [->|Hne]; [done|].
    unfold fetchLatest.settle in Harrive.
    rewrite decide_False in Harrive by done. by injection Harrive.
  - destruct (suspended p !! id) as [[href0 orig [r|]]|] eqn:Hc; try done.
    destruct (fromServer.fetch_resume _ _ _) as [s v] eqn:Hresume. simpl.
    split.
    + intros id' v' [Hin|Hin]%elem_of_app; [by eapply Happlied|].
      apply handed_back_elem in Hin as (-> & -> & Hv').
      destruct (fromServer_facts.fetch_resume_patch _ _ _ _ _ Hresume Hv')
        as (j & -> & Hj & _).
      eapply Hpromise; [exact Hc|]. by destruct j.
    + intros id' href' orig' v' Hc' Hv'.
      apply lookup_delete_Some in Hc' as [_ Hc']. by eapply Hpromise.
Qed.

Lemma run_only_latest (n : nat) (settles : list Action) (p : @Page W) :
  Forall (fun a => is_fetch a = false) settles ->
  only_latest n p -> only_latest n (run p settles).
Proof.
  intros Hsettles. revert p.
  induction Hsettles as [|a settles Ha _ IH]; intros p Hp; [done|].
  simpl. apply IH. by apply step_only_latest.
Qed.

(** *** Any interleaving *)

Lemma step_well_numbered (p : @Page W) (a : Action) :
  well_numbered p -> well_numbered (step p a).
Proof.
  intros [Hsusp Happlied].
  destruct a as [url o orig|id outcome|id|f]; simpl; try done.
  - destruct (fromServer.fetch_dispatch url o (browser p)) as [s [e|href0]];
      [done|]. unfold fetchLatest.issue. split; simpl.
    + intros id c [[<- _]|[_ Hc]]%lookup_insert_Some; [lia|].
      apply Hsusp in Hc. lia.
    + intros id v [Hle Hnone]%Happlied. split; [lia|].
      rewrite lookup_insert_ne by lia. done.
  - destruct (suspended p !! id) as [[href0 orig [r|]]|] eqn:Hc; try done.
    destruct (fromServer.fetch_arrive _ _ _) as [s r]. split; simpl.
    + intros id' c [[<- _]|[_ Hc']]%lookup_insert_Some; by eapply Hsusp.
    + intros id' v [Hle Hnone]%Happlied. split; [done|].
      rewrite lookup_insert_ne; [done|]. intros <-. by rewrite Hc in Hnone.
  - destruct (suspended p !! id) as [[href0 orig [r|]]|] eqn:Hc; try done.
    destruct (fromServer.fetch_resume _ _ _) as [s v]. split; simpl.
    + intros id' c [_ Hc']%lookup_delete_Some. by eapply Hsusp.
    + intros id' v' [Hin|Hin]%elem_of_app.
      * apply Happlied in Hin as [Hle Hnone]. split; [done|].
        by apply lookup_delete_None; right.
      * apply handed_back_elem in Hin as (-> & _ & _). split.
        -- by eapply Hsusp.
        -- by rewrite lookup_delete_eq.
Qed.

Lemma run_well_numbered (actions : list Action) (p : @Page W) :
  well_numbered p -> well_numbered (run p actions).
Proof.
  revert p. induction actions as [|a actions IH]; intros p Hp; [done|].
  simpl. apply IH. by apply step_well_numbered.
Qed.

Lemma start_well_numbered (w : W) : well_numbered (start w).
Proof.
  split; simpl.
  - intros id c. by rewrite lookup_empty.
  - intros id v. by intros ?%elem_of_nil.
Qed.

Lemma step_discarded (id : nat) (p : @Page W) (a : Action) :
  discarded id p -> discarded id (step p a).
Proof.
  intros (Hle & Happlied & Hstale).
  destruct a as [url o orig|id' outcome|id'|f]; simpl; try done.
  - destruct (fromServer.fetch_dispatch url o (browser p)) as [s [e|href0]];
      [done|]. unfold fetchLatest.issue. split; simpl; [lia|].
    split; [done|]. intros c. rewrite lookup_insert_ne by lia. apply Hstale.
  - destruct (suspended p !! id') as [[href0 orig [r|]]|] eqn:Hc; try done.
    destruct (fromServer.fetch_arrive _ _ _) as [s r].
    split; simpl; [done|]. split; [done|].
    intros c [[<- _]|[_ Hc']]%lookup_insert_Some; [|by apply Hstale].
    by apply Hstale in Hc.
  - destruct (suspended p !! id') as [[href0 orig [r|]]|] eqn:Hc; try done.
    destruct (fromServer.fetch_resume _ _ _) as [s v] eqn:Hresume.
    split; simpl; [done|]. split.
    + intros v' [Hin|Hin]%elem_of_app; [by eapply Happlied|].
      apply handed_back_elem in Hin as (-> & -> & Hv').
      apply Hstale in Hc. simpl in Hc. injection Hc as ->.
      rewrite fromServer_facts.fetch_resume_rejected in Hresume.
      apply fromServer_facts.fetch_catch_nullish in Hresume as [-> _]. done.
    + intros c [_ Hc']%lookup_delete_Some. by apply Hstale.
Qed.

Lemma run_discarded (id : nat) (actions : list Action) (p : @Page W) :
  discarded id p -> discarded id (run p actions).
Proof.
  revert p. induction actions as [|a actions IH]; intros p Hp; [done|].
  simpl. apply IH. by apply step_discarded.
Qed.

(** *** C1 *)

(** C1 (amended): let any number of calls of [fetch] be made on a page,
    with anything happening to the browser in between, and let their
    requests settle and the calls resume only after the last of them has
    been made, in any order, each with any outcome.  Every patch handed
    back to a caller comes from the call with the highest generation: the
    generation of each suspended call is at most the counter, and the
    generation of each applied patch is the counter.  And in any
    interleaving whatsoever, a call that has been superseded when its
    request settles is discarded: nothing of it is ever applied.  (A call
    superseded later, between the arrival of its response and its
    resumption, is compared with nothing but the location.) *)
Theorem only_latest_call_applied (w : W) (calls settles : list Action) :
  Forall (fun a => is_response a = false) calls ->
  Forall (fun a => is_fetch a = false) settles ->
  let issued := run (start w) calls in
  let final := run (start w) (calls ++ settles) in
  counter final = counter issued
  /\ (forall id c, suspended issued !! id = Some c -> id <= counter issued)
  /\ (forall id v, (id, v) ∈ applied final -> id = counter issued)
  /\ (forall pre post id href0 orig outcome v,
        suspended (run (start w) pre) !! id
          = Some (mkSuspended href0 orig None) ->
        id <> counter (run (start w) pre) ->
        (id, v) ∉ applied (run (start w) (pre ++ Arrive id outcome :: post))).
Proof.
  intros Hcalls Hsettles issued final. subst issued final.
  rewrite run_app.
  assert (Hflight : all_in_flight (run (start w) calls)).
  { apply run_all_in_flight; [done|]. split; [done|].
    intros id c. simpl. by rewrite lookup_empty. }
  destruct (run_only_latest _ settles _ Hsettles
              (all_in_flight_only_latest _ Hflight))
    as (Hcounter & Happlied & _).
  split; [done|]. split.
  { apply (run_well_numbered calls (start w) (start_well_numbered w)). }
  split; [done|].
  intros pre post id href0 orig outcome v Hc Hid.
  rewrite run_app, run_cons.
  destruct (run_well_numbered pre (start w) (start_well_numbered w))
    as [Hsusp Hdone].
  apply (run_discarded id post). rewrite (arrive_superseded _ _ _ _ _ Hc Hid).
  split; simpl; [by eapply Hsusp|]. split.
  - intros v' Hin. apply Hdone in Hin as [_ Hnone]. by rewrite Hc in Hnone.
  - intros c. rewrite lookup_insert_eq. by intros [= <-].
Qed.
End WithPlatform.
End Session_facts.

(** * The properties on the concrete browser *)

Module Demo_facts.
Import Demo fromServer PWA.

Example parse_other_port :
  parse_URL other_port
    = inr (mkURL other_port "http:" "shop.example.com" "8080" "/cart"
                 "?x=1" "").
Proof. reflexivity. Qed.

Example other_host_is_assigned :
  trace (redirectTo (Some elsewhere) s0).1 = [location_assign elsewhere].
Proof. reflexivity. Qed.

(** The scenario of the specification: only B's patch is applied, in
    whichever order the responses arrive. *)
Example only_b_applied :
  Session.applied (Session.run (Session.start browser0)
                               (two_calls ++ a_then_b))
    = [(2, val (spread_loading (product 2)))]
  /\ Session.applied (Session.run (Session.start browser0)
                                  (two_calls ++ b_then_a))
     = [(2, val (spread_loading (product 2)))].
Proof. split; vm_compute; reflexivity. Qed.

Lemma only_latest_call_applied_witness :
  Forall (fun a => Session.is_response a = false) two_calls
  /\ Forall (fun a => Session.is_fetch a = false) a_then_b
  /\ forall id v,
       (id, v) ∈ Session.applied
                   (Session.run (Session.start browser0)
                                (two_calls ++ a_then_b)) ->
       id = Session.counter (Session.run (Session.start browser0) two_calls).
Proof.
  assert (H1 : Forall (fun a => Session.is_response a = false) two_calls)
    by (repeat constructor).
  assert (H2 : Forall (fun a => Session.is_fetch a = false) a_then_b)
    by (repeat constructor).
  split; [exact H1|]. split; [exact H2|].
  exact (proj1 (proj2 (proj2
           (Session_facts.only_latest_call_applied browser0 two_calls
              a_then_b H1 H2)))).
Defined.

(** C2, as stated, fails: the location has not changed and the body has
    been parsed (to [null]), yet the call resolves with [undefined] and no
    patch. *)
Lemma null_body_yields_no_patch :
  let r := fetch "/products/1.json" plain false id (inr (ok JNull)) id s0 in
  json (ok JNull) = inr JNull
  /\ href (window_location (world r.1)) = href (window_location (world s0))
  /\ r.2 = inr undefined.
Proof. vm_compute. repeat split. Qed.

Lemma moved_location_discards_witness :
  (fetch_settle (href shop) false (inr (ok (product 2))) id moved
     = (resumed id moved, inr undefined)
   /\ href (window_location (world (resumed id moved))) <> href shop
   /\ nullish undefined = true)
  /\ (redirected (ok (product 2)) = false
      /\ (ext resumePrefetches (world s0)).2 = None
      /\ status (ok (product 2)) <> 204%Z
      /\ json (ok (product 2)) = inr (product 2)
      /\ product 2 <> JNull
      /\ href (window_location (world (resumed id s0))) = href shop
      /\ fetch_settle (href shop) false (inr (ok (product 2))) id s0
         = (resumed id s0, inr (val (spread_loading (product 2))))).
Proof.
  assert (Hrun : fetch_settle (href shop) false (inr (ok (product 2))) id moved
                 = (resumed id moved, inr undefined))
    by (vm_compute; reflexivity).
  assert (Hmoved : href (window_location (world (resumed id moved)))
                   <> href shop)
    by (vm_compute; discriminate).
  assert (Hst : status (ok (product 2)) <> 204%Z) by (simpl; lia).
  assert (Hj : product 2 <> JNull) by discriminate.
  assert (Hhref : href (window_location (world (resumed id s0))) = href shop)
    by reflexivity.
  split.
  - split; [exact Hrun|]. split; [exact Hmoved|].
    exact (proj1 (fromServer_facts.moved_location_discards (href shop) false
                    (inr (ok (product 2))) id moved)
                 _ _ Hrun Hmoved).
  - repeat (split; [first [reflexivity|assumption]|]).
    exact (proj2 (fromServer_facts.moved_location_discards (href shop) false
                    (inr (ok (product 2))) id s0)
                 (ok (product 2)) (product 2) eq_refl eq_refl eq_refl Hst
                 eq_refl Hj Hhref).
Defined.

(** C3, as stated, fails: a redirect target on another origin (another
    scheme and port) but on the host of the page is pushed on the history;
    [location.assign] is not called. *)
Lemma cross_origin_same_host_is_pushed :
  exists parsed,
    new_URL other_port = inr parsed
    /\ same_origin parsed (window_location (world s0)) = false
    /\ trace (redirectTo (Some other_port) s0).1
       = [history_call push [JStr "/cart?x=1"]].
Proof. eexists. vm_compute. repeat split. Qed.

Lemma redirect_by_hostname_witness :
  newpath <> ""
  /\ new_URL newpath
     = inr (mkURL newpath "https:" "shop.example.com" "" "/newpath" "" "")
  /\ trace (redirectTo (Some newpath) s0).1
     = trace s0 ++ [history_call push [JStr "/newpath"]].
Proof.
  assert (Hurl : newpath <> "") by discriminate.
  assert (Hparse : new_URL newpath
            = inr (mkURL newpath "https:" "shop.example.com" "" "/newpath"
                         "" ""))
    by reflexivity.
  split; [exact Hurl|]. split; [exact Hparse|].
  exact (proj1 (fromServer_facts.redirect_by_hostname newpath _ s0 Hurl Hparse)
               eq_refl).
Defined.

(** C4, as stated, fails: on a 204 the call resolves with [undefined],
    which is not [null]. *)
Lemma no_content_is_not_null :
  let r := fetch "/products/1.json" plain false id (inr no_content) id s0 in
  status no_content = 204%Z
  /\ href (window_location (world r.1)) = href (window_location (world s0))
  /\ r.2 = inr undefined
  /\ r.2 <> inr null.
Proof. vm_compute. repeat split. discriminate. Qed.

Lemma no_content_resolves_undefined_witness :
  redirected no_content = false
  /\ status no_content = 204%Z
  /\ (ext resumePrefetches (world s0)).2 = None
  /\ fetch_settle (href shop) false (inr no_content) id s0
     = (resumed id s0, inr undefined).
Proof.
  repeat (split; [reflexivity|]).
  exact (proj2 (fromServer_facts.no_content_resolves_undefined (href shop)
                  false no_content id s0 eq_refl eq_refl eq_refl)).
Defined.


Lemma redirect_without_location_throws_witness :
  truthy (Some "") = false
  /\ redirectTo (Some "") s0 = (s0, inl no_location)
  /\ fetch_settle (href shop) true (inr (redirect (Some ""))) id s0
     = (s0, inl no_location).
Proof.
  split; [reflexivity|].
  exact (fromServer_facts.redirect_without_location_throws (Some "") 200
           (inr (JObj ∅)) (href shop) true id s0 eq_refl).
Defined.

(** C7, as stated, fails: once the request has been dispatched prefetching
    is still off, and on the redirect path [fetch] runs to its end without
    ever calling [resumePrefetches]. *)
Lemma redirect_never_resumes :
  let dispatched := (fetch_dispatch "/r.json" plain s0).1 in
  let r := fetch "/r.json" plain true id (inr (redirect (Some newpath))) id s0 in
  prefetching (world dispatched) = false
  /\ (resumePrefetches ∉ trace dispatched)
  /\ r.2 = inr undefined
  /\ trace r.1
     = [abortPrefetches;
        doFetch "/r.json" (request_init plain "1");
        history_call push [JStr "/newpath"];
        set_redirected]
  /\ (resumePrefetches ∉ trace r.1).
Proof.
  vm_compute. repeat split; intros Hin;
    repeat (apply elem_of_cons in Hin as [Hin|Hin]; [discriminate|]);
    by apply elem_of_nil in Hin.
Qed.

(** C8, as stated, fails: the snapshot is refused for its size, the write
    of [null] is refused as well, and the error reaches the caller: no
    warning is logged, the entry keeps its old state, and the wrapped
    [push] never calls the original. *)
Lemma failed_fallback_throws :
  let r := recordState browser_history exhausted in
  let n := patched browser_history push [JStr "/cart"] exhausted in
  r.2 = inl (Thrown "SecurityError" "too many calls to replaceState")
  /\ trace r.1
     = [history_call replace [JStr "/products/1"; product 0];
        history_call replace [JStr "/products/1"; JNull]]
  /\ entry_state (world r.1) = product 7
  /\ n.2 = inl (Thrown "SecurityError" "too many calls to replaceState")
  /\ trace n.1 = trace r.1.
Proof. vm_compute. repeat split. Qed.

Lemma failed_record_falls_back_to_null_witness :
  let s1 := mkSt (world cramped)
                 [history_call replace [JStr "/products/1"; product 0]] in
  let e := Thrown "DataCloneError" "the state is too large" in
  let fallback := history_call replace [JStr "/products/1"; JNull] in
  let s2 := mkSt (ext fallback (world s1)).1
                 (trace s1 ++ [fallback; console_warn warning]) in
  write_snapshot browser_history "/products/1" cramped
    = (mkSt (ext (history_call replace [JStr "/products/1"; product 0])
                 (world cramped)).1 (trace s1), inl e)
  /\ (ext fallback (ext (history_call replace [JStr "/products/1"; product 0])
                       (world cramped)).1).2 = None
  /\ entry_state (world s2) = JNull
  /\ recordState browser_history cramped
     = (mkSt (ext fallback
                (ext (history_call replace [JStr "/products/1"; product 0])
                     (world cramped)).1).1
             (trace s1 ++ [fallback; console_warn warning]), inr tt).
Proof.
  intros s1 e fallback s2.
  assert (Hfail : write_snapshot browser_history "/products/1" cramped
            = (mkSt (ext (history_call replace
                            [JStr "/products/1"; product 0])
                         (world cramped)).1 (trace s1), inl e))
    by (vm_compute; reflexivity).
  assert (Hok : (ext fallback
                   (ext (history_call replace [JStr "/products/1"; product 0])
                        (world cramped)).1).2 = None)
    by (vm_compute; reflexivity).
  split; [exact Hfail|]. split; [exact Hok|]. split; [reflexivity|].
  exact (proj1 (PWA_facts.failed_record_falls_back_to_null push []
                  cramped _ e Hfail Hok)).
Defined.

(** C9, as stated, fails for [replace]: the patched object calls the
    original straight away, and nothing is recorded first. *)
Lemma replace_records_nothing :
  let r := patched browser_history replace [JStr "/cart"] s0 in
  app_toJSON (world s0) = inr (product 0)
  /\ r.2 = inr tt
  /\ trace r.1 = [history_call replace [JStr "/cart"]].
Proof. vm_compute. repeat split. Qed.

Lemma state_recorded_before_delegating_witness :
  push ∈ recorded_methods
  /\ app_toJSON (world s0) = inr (product 0)
  /\ (exists rest,
        trace (patched browser_history push [JStr "/cart"] s0).1
          = trace s0
              ++ history_call replace [JStr "/products/1"; product 0] :: rest)
  /\ trace (patched browser_history push [JStr "/cart"] s0).1
     = [history_call replace [JStr "/products/1"; product 0];
        history_call push [JStr "/cart"]].
Proof.
  assert (Hm : push ∈ recorded_methods) by (apply elem_of_cons; by left).
  split; [exact Hm|]. split; [reflexivity|]. split; [|reflexivity].
  exact (proj1 (PWA_facts.state_recorded_before_delegating push [JStr "/cart"]
                  (product 0) s0 Hm eq_refl)).
Defined.

Lemma patch_defaults_loading_witness :
  redirected (ok still_loading) = false
  /\ (ext resumePrefetches (world s0)).2 = None
  /\ status (ok still_loading) <> 204%Z
  /\ json (ok still_loading) = inr still_loading
  /\ still_loading <> JNull
  /\ href (window_location (world (resumed id s0))) = href shop
  /\ exists fields,
       fetch_settle (href shop) false (inr (ok still_loading)) id s0
         = (resumed id s0, inr (val (JObj fields)))
       /\ fields !! "loading" = Some (JBool true)
       /\ fields !! "page" = Some (JStr "Cart").
Proof.
  assert (Hst : status (ok still_loading) <> 204%Z) by (simpl; lia).
  assert (Hj : still_loading <> JNull) by discriminate.
  assert (Hres : (ext resumePrefetches (world s0)).2 = None) by reflexivity.
  assert (Hhref : href (window_location (world (resumed id s0))) = href shop)
    by reflexivity.
  repeat (split; [first [reflexivity|assumption]|]).
  destruct (proj2 (fromServer_facts.patch_defaults_loading (href shop) false
                     (inr (ok still_loading)) id s0)
                  (ok still_loading) still_loading eq_refl eq_refl Hres Hst
                  eq_refl Hj Hhref)
    as (fields & Hrun & _ & Hobj & _).
  destruct (Hobj _ eq_refl) as (Hk & Hl & _).
  exists fields. split; [exact Hrun|]. split; [exact Hl|].
  exact (Hk "page" (JStr "Cart") eq_refl).
Defined.

(** C10, as stated, fails: the response is a success, its body has been
    parsed (to [null]) and the location has not changed, yet the call
    resolves with [undefined]: there is no patch, and no [loading]. *)
Lemma null_body_has_no_loading :
  let r := fetch "/products/2.json" plain false id (inr (ok JNull)) id s0 in
  redirected (ok JNull) = false
  /\ status (ok JNull) = 200%Z
  /\ json (ok JNull) = inr JNull
  /\ href (window_location (world r.1)) = href (window_location (world s0))
  /\ r.2 = inr undefined
  /\ match r.2 with
     | inr (val (JObj fields)) => fields !! "loading"
     | _ => None
     end = None.
Proof. vm_compute. repeat split. Qed.

(** A body with no [loading] of its own gets [loading: false]; an array
    body is spread under its indices. *)
Example patches_of_bodies :
  (fetch "/products/2.json" plain false id (inr (ok (product 2))) id s0).2
    = inr (val (JObj {[ "loading" := JBool false; "page" := JStr "Product";
                        "id" := JNum 2 ]}))
  /\ (fetch "/products.json" plain false id (inr (ok Demo_view.listing)) id s0).2
     = inr (val (JObj {[ "loading" := JBool false; "0" := product 1;
                         "1" := product 2 ]})).
Proof. split; vm_compute; reflexivity. Qed.

(** C1, as stated, fails: B supersedes A while A's body is being read;
    A then resumes with the location unchanged and its patch is handed
    back, although A no longer has the highest generation.  B's patch is
    applied after it. *)
Lemma superseded_while_reading_is_applied :
  let p := Session.run (Session.start browser0) Demo_view.b_while_a_is_read in
  let q := Session.run (Session.start browser0) Demo_view.b_after_a_is_read in
  Session.counter p = 2
  /\ Session.applied p = [(1, val (spread_loading (product 1)))]
  /\ Session.applied q
     = [(1, val (spread_loading (product 1)));
        (2, val (spread_loading (product 2)))].
Proof. vm_compute. repeat split. Qed.
End Demo_facts.

(** * Further properties of [fromServer.js] *)

Module fromServer_more.
Import fromServer fromServer_facts fromServer_factory Statements Statements_fetch.
Section WithPlatform.
Context {W : Type} `{Platform W}.

Lemma redirectTo_unparsed (url : string) (e : exn) (s : St W) :
  url <> "" ->
  new_URL url = inl e ->
  redirectTo (Some url) s = (s, inl e).
Proof.
  intros Hurl Hparse. unfold redirectTo, truthy.
  apply String.eqb_neq in Hurl. rewrite Hurl. simpl.
  unfold bind, eval. by rewrite Hparse.
Qed.

(** X1: a redirect target that [new URL] refuses makes [redirectTo] throw
    what [URL] threw, before any navigation; [fetch] rethrows it unless it
    is the stale signal, having neither pushed, assigned, resumed
    prefetching nor marked the original response. *)
Theorem unparsable_redirect_rejects (url : string) (e : exn) (st : Z)
    (body : exn + JSON) (href0 : string) (orig : bool) (reading : W -> W)
    (s : St W) :
  url <> "" ->
  new_URL url = inl e ->
  StaleResponseError_is e = false ->
  redirectTo (Some url) s = (s, inl e)
  /\ fetch_settle href0 orig (inr (mkResponse true (Some url) st body))
       reading s
     = (after reading s, inl e).
Proof.
  intros Hurl Hparse He. split; [by apply redirectTo_unparsed|].
  rewrite fetch_settle_response. unfold fetch_then, bind. simpl.
  rewrite (redirectTo_unparsed _ _ _ Hurl Hparse). simpl.
  rewrite fetch_resume_rejected. unfold fetch_catch. by rewrite He.
Qed.

Lemma fetch_settle_redirected (response : Response) (href0 : string)
    (orig : bool) (reading : W -> W) (s s1 : St W) :
  redirected response = true ->
  redirectTo (url response) s = (s1, inr tt) ->
  fetch_settle href0 orig (inr response) reading s
    = (after reading
         (if orig then mkSt (world s1) (trace s1 ++ [set_redirected])
          else s1),
       inr undefined).
Proof.
  intros Hred Hgo. rewrite fetch_settle_response.
  unfold fetch_then. rewrite Hred. unfold bind. rewrite Hgo.
  destruct orig; simpl; by rewrite fetch_resume_value, fetch_return_run.
Qed.

(** X2: a redirected response never yields a patch: whatever [fetch]
    resolves with on it is nullish.  When the redirect goes through,
    [fetch] resolves with [undefined] whatever the status and the body
    are and whether or not the location has changed, and the original
    response, if one was given, has been marked. *)
Theorem redirect_yields_no_patch (response : Response) (href0 : string)
    (orig : bool) (reading : W -> W) (s : St W) :
  redirected response = true ->
  (forall s' v,
      fetch_settle href0 orig (inr response) reading s = (s', inr v) ->
      nullish v = true)
  /\ (forall s1,
        redirectTo (url response) s = (s1, inr tt) ->
        fetch_settle href0 orig (inr response) reading s
          = (after reading
               (if orig then mkSt (world s1) (trace s1 ++ [set_redirected])
                else s1),
             inr undefined)).
Proof.
  intros Hred. split.
  - intros s' v Hrun. destruct (nullish v) eqn:Hv; [done|].
    rewrite fetch_settle_response in Hrun.
    destruct (fetch_resume_patch _ _ _ _ _ Hrun Hv) as (j & Hpromise & Hj & _).
    destruct (fetch_then orig response s) as [s1 r] eqn:Hthen.
    simpl in Hpromise. subst r.
    destruct (fetch_then_value _ _ _ _ _ Hthen Hj) as [Hnot _].
    congruence.
  - intros s1 Hgo. by apply fetch_settle_redirected.
Qed.

(** X3: when aborting the prefetches returns, the next thing [fetch]
    does is hand [doFetch] the url it was given and a request that sends
    credentials, names the cache mode asked for -- [default] when none or
    the empty one was asked for --, carries the app-identity header with
    value [true], the API version header with what [getAPIVersion()]
    returns at that moment, the cache-hit header exactly when [onlyHit]
    was set, and no header twice. *)
Theorem request_headers (url : string) (o : Options) (s : St W) :
  (ext abortPrefetches (world s)).2 = None ->
  exists init,
    trace (fetch_dispatch url o s).1
      = trace s ++ [abortPrefetches; doFetch url init]
    /\ init_credentials init = "include"
    /\ (cache o = None \/ cache o = Some "" -> init_cache init = "default")
    /\ (forall c, cache o = Some c -> c <> "" -> init_cache init = c)
    /\ (forall v, (REACT_STOREFRONT, v) ∈ init_headers init <-> v = "true")
    /\ (forall v, (API_VERSION, v) ∈ init_headers init
                  <-> v = getAPIVersion (ext abortPrefetches (world s)).1)
    /\ (forall v, (CLIENT_IF, v) ∈ init_headers init
                  <-> onlyHit o = true /\ v = "cache-hit")
    /\ NoDup (init_headers init).*1.
Proof.
  intros Habort.
  pose proof (fetch_dispatch_run url o s) as Hd. cbv zeta in Hd.
  rewrite Habort in Hd. rewrite Hd. simpl.
  set (api_version := getAPIVersion (ext abortPrefetches (world s)).1).
  exists (request_init o api_version).
  split; [by rewrite <- app_assoc|].
  unfold request_init. simpl.
  split; [done|]. split.
  { intros [->| ->]; done. }
  split.
  { intros c -> Hc. apply String.eqb_neq in Hc. by rewrite Hc. }
  assert (Hin : forall k v,
             (k, v) ∈ [(REACT_STOREFRONT, "true"); (API_VERSION, api_version)]
                      ++ (if onlyHit o then [(CLIENT_IF, "cache-hit")] else [])
             <-> (k = REACT_STOREFRONT /\ v = "true")
                 \/ (k = API_VERSION /\ v = api_version)
                 \/ (k = CLIENT_IF /\ v = "cache-hit" /\ onlyHit o = true)).
  { intros k v. rewrite elem_of_app, !elem_of_cons, elem_of_nil.
    destruct (onlyHit o);
      rewrite ?elem_of_cons, ?elem_of_nil; naive_solver. }
  split; [|split; [|split]]; try (intros v; rewrite Hin; naive_solver).
  destruct (onlyHit o); simpl; repeat constructor;
    rewrite ?elem_of_cons, ?elem_of_nil; naive_solver.
Qed.

(** *** The handler [fromServer] creates *)

Lemma createURL_run (getURL : option (string -> string)) (s : St W) :
  createURL getURL s
    = (s, inr (let l := window_location (world s) in
               let url := pathname l +:+ ".json" +:+ search l in
               match getURL with Some f => f url | None => url end)).
Proof. reflexivity. Qed.

(** X4: without a service worker that is ready, [getCachedResponse]
    resolves with [null] and does nothing at all: prefetches are not
    aborted, no request is made, the browser is left as it was. *)
Theorem no_service_worker_no_lookup (isServiceWorkerReady : W -> bool)
    (getURL : option (string -> string)) (clientCache : option string)
    (flight : W -> W) (outcome : exn + Response) (reading : W -> W)
    (s : St W) :
  isServiceWorkerReady (world s) = false ->
  getCachedResponse isServiceWorkerReady getURL clientCache flight outcome
    reading s
    = (s, inr null).
Proof.
  intros Hready. unfold getCachedResponse, bind, gets. by rewrite Hready.
Qed.

(** The request a call of [fetch] starts with. *)
Lemma fetch_starts (url : string) (o : Options) (orig : bool)
    (flight : W -> W) (outcome : exn + Response) (reading : W -> W)
    (s : St W) :
  (ext abortPrefetches (world s)).2 = None ->
  exists rest,
    trace (fetch url o orig flight outcome reading s).1
      = trace s
          ++ [abortPrefetches;
              doFetch url
                (request_init o
                   (getAPIVersion (ext abortPrefetches (world s)).1))]
          ++ rest.
Proof.
  intros Habort.
  pose proof (fetch_dispatch_run url o s) as Hd. cbv zeta in Hd.
  rewrite Habort in Hd.
  unfold fetch. unfold bind at 1. rewrite Hd.
  unfold bind, interleave, after. cbv beta iota.
  destruct (fetch_settle_trace
              (href (window_location (ext abortPrefetches (world s)).1))
              orig outcome reading
              (mkSt (flight (ext abortPrefetches (world s)).1)
                    ((trace s ++ [abortPrefetches])
                       ++ [doFetch url
                             (request_init o
                                (getAPIVersion
                                   (ext abortPrefetches (world s)).1))])))
    as (added & Htr & _).
  exists added. simpl in *. rewrite Htr. by rewrite <- !app_assoc.
Qed.

(** X5: with a service worker ready, the cache lookup of
    [getCachedResponse] and the fetch of [fn] ask for the same url --
    [pathname + '.json' + search], passed through [getURL] if there is
    one -- with the same cache mode; the only difference between the two
    requests is the cache-hit header of the lookup. *)
Theorem lookup_and_fetch_ask_alike (isServiceWorkerReady : W -> bool)
    (getURL : option (string -> string)) (clientCache : option string)
    (flight : W -> W) (outcome : exn + Response) (reading : W -> W)
    (s : St W) :
  isServiceWorkerReady (world s) = true ->
  (ext abortPrefetches (world s)).2 = None ->
  let l := window_location (world s) in
  let url := default id getURL (pathname l +:+ ".json" +:+ search l) in
  let api_version := getAPIVersion (ext abortPrefetches (world s)).1 in
  let asked := request_init (mkOptions clientCache false) api_version in
  exists rest rest',
    trace (fn_fetch getURL clientCache flight outcome reading s).1
      = trace s ++ [abortPrefetches; doFetch url asked] ++ rest
    /\ trace (getCachedResponse isServiceWorkerReady getURL clientCache
                flight outcome reading s).1
       = trace s
           ++ [abortPrefetches;
               doFetch url
                 (mkRequestInit (init_cache asked) (init_credentials asked)
                    (init_headers asked ++ [(CLIENT_IF, "cache-hit")]))]
           ++ rest'.
Proof.
  intros Hready Habort l url api_version asked.
  assert (Hurl : createURL getURL s = (s, inr url)).
  { rewrite createURL_run. subst url l. by destruct getURL. }
  destruct (fetch_starts url (mkOptions clientCache false) true flight
              outcome reading s Habort) as (rest & Hrest).
  destruct (fetch_starts url (mkOptions clientCache true) false flight
              outcome reading s Habort) as (rest' & Hrest').
  exists rest, rest'. split.
  - unfold fn_fetch, bind. rewrite Hurl. exact Hrest.
  - unfold getCachedResponse. unfold bind at 1 2. unfold gets.
    rewrite Hready. cbv beta iota delta [negb]. rewrite Hurl. exact Hrest'.
Qed.

Lemma fetch_in_flight (url : string) (o : Options) (orig : bool)
    (flight : W -> W) (outcome : exn + Response) (reading : W -> W)
    (s : St W) :
  (ext abortPrefetches (world s)).2 = None ->
  fetch url o orig flight outcome reading s
    = fetch_settle
        (href (window_location (ext abortPrefetches (world s)).1))
        orig outcome reading (in_flight url o flight s).
Proof.
  intros Habort. unfold in_flight.
  pose proof (fetch_dispatch_run url o s) as Hd. cbv zeta in Hd.
  rewrite Habort in Hd.
  unfold fetch. unfold bind at 1. rewrite Hd. reflexivity.
Qed.

(** X6: on a redirected response whose redirect goes through, [fn] --
    which hands its response on to [fetch] -- marks that response as
    redirected, as the last thing it does, and resolves with [undefined];
    [getCachedResponse] resolves with [undefined] too and marks
    nothing. *)
Theorem fn_marks_redirects_lookup_does_not
    (isServiceWorkerReady : W -> bool) (getURL : option (string -> string))
    (clientCache : option string) (flight : W -> W) (response : Response)
    (reading : W -> W) (s s1 s1' : St W) :
  isServiceWorkerReady (world s) = true ->
  (ext abortPrefetches (world s)).2 = None ->
  redirected response = true ->
  let l := window_location (world s) in
  let target := default id getURL (pathname l +:+ ".json" +:+ search l) in
  redirectTo (url response)
    (in_flight target (mkOptions clientCache false) flight s) = (s1, inr tt) ->
  redirectTo (url response)
    (in_flight target (mkOptions clientCache true) flight s) = (s1', inr tt) ->
  fn_fetch getURL clientCache flight (inr response) reading s
    = (after reading (mkSt (world s1) (trace s1 ++ [set_redirected])),
       inr undefined)
  /\ getCachedResponse isServiceWorkerReady getURL clientCache flight
       (inr response) reading s
     = (after reading s1', inr undefined).
Proof.
  intros Hready Habort Hred l target Hgo Hgo'.
  assert (Hurl : createURL getURL s = (s, inr target)).
  { rewrite createURL_run. subst target l. by destruct getURL. }
  split.
  - unfold fn_fetch, bind. rewrite Hurl.
    rewrite (fetch_in_flight _ _ _ _ _ _ _ Habort).
    by rewrite (fetch_settle_redirected _ _ true _ _ _ Hred Hgo).
  - unfold getCachedResponse. unfold bind at 1 2. unfold gets.
    rewrite Hready. cbv beta iota delta [negb]. rewrite Hurl.
    rewrite (fetch_in_flight _ _ _ _ _ _ _ Habort).
    by rewrite (fetch_settle_redirected _ _ false _ _ _ Hred Hgo').
Qed.
End WithPlatform.

(** *** A transpiled handler *)

Section Transpiled.
Context {R P Q A : Type}.
Variable response_set : ResponseHeader -> string -> R -> R.
Variable response_get : ResponseHeader -> R -> option string.
Variable request_path : Q -> string.

(** X7: when [set] and [get] of the response behave as a store of
    headers, [fn] runs a transpiled handler on the very params and
    request it was given and on a response that names the handler's path
    as its handler, says [json] exactly when the path of the request ends
    in [.json] and [ssr] otherwise, and keeps a surrogate key that was
    already set (and not empty); only without one does the handler's
    path become the surrogate key. *)
Theorem handler_is_tagged (path : string) (handlerPath : P -> Q -> R -> A)
    (params : P) (request : Q) (response : R) :
  (forall k v r, response_get k (response_set k v r) = Some v) ->
  (forall k k' v r,
      k <> k' -> response_get k (response_set k' v r) = response_get k r) ->
  exists tagged,
    fn_handler response_set response_get request_path path handlerPath
      params request response
      = handlerPath params request tagged
    /\ response_get HANDLER tagged = Some path
    /\ response_get RESPONSE_TYPE tagged
       = Some (if endsWith (request_path request) ".json"
               then "json" else "ssr")
    /\ response_get SURROGATE_KEY tagged
       = if truthy (response_get SURROGATE_KEY response)
         then response_get SURROGATE_KEY response
         else Some path.
Proof.
  intros Hsame Hother. unfold fn_handler.
  set (kind := if endsWith _ _ then _ else _).
  rewrite !Hother by done.
  destruct (truthy (response_get SURROGATE_KEY response)) eqn:Hkey; simpl.
  - eexists. split; [reflexivity|].
    rewrite Hother, !Hsame, !Hother by done. done.
  - eexists. split; [reflexivity|].
    rewrite !Hother, !Hsame by done. rewrite Hother, Hsame by done. done.
Qed.
End Transpiled.
End fromServer_more.

(** * Further properties of the [PWA] component *)

Module PWA_more.
Import PWA PWA_facts PWA_view Statements.

(** *** [recordState] *)

Section Recording.
Context {W : Type} `{Platform W}.

(** X8: whatever happens, [recordState] touches the history only through
    [replace], only at the path of the current entry, and at most twice
    (the snapshot, then [null]); the only other thing it may do is log
    its warning.  It never pushes and never goes anywhere. *)
Theorem recordState_only_replaces_here (s : St W) :
  exists added,
    trace (recordState browser_history s).1 = trace s ++ added
    /\ Forall (records_at (entry_path (history_location (world s)))) added
    /\ length (List.filter is_history_call added) <= 2.
Proof.
  set (path := entry_path (history_location (world s))).
  assert (Hfallback : forall s1 : St W,
    exists added,
      trace ((browser_history replace [JStr path; JNull];;
              emit (console_warn warning)) s1).1 = trace s1 ++ added
      /\ Forall (records_at path) added
      /\ length (List.filter is_history_call added) <= 1).
  { intros s1. unfold bind, browser_history.
    pose proof (call_trace (history_call replace [JStr path; JNull]) s1)
      as Htr.
    destruct (call _ s1) as [s2 [e|[]]]; simpl in Htr.
    - exists [history_call replace [JStr path; JNull]].
      split; [done|]. split; [|simpl; lia].
      constructor; [|done]. left. by eexists.
    - exists [history_call replace [JStr path; JNull]; console_warn warning].
      unfold emit. simpl. rewrite Htr, <- app_assoc.
      split; [done|]. split; [|simpl; lia].
      constructor; [left; by eexists|]. constructor; [by right|done]. }
  assert (Hattempt : exists tried,
    trace (write_snapshot browser_history path s).1 = trace s ++ tried
    /\ Forall (records_at path) tried
    /\ length (List.filter is_history_call tried) <= 1).
  { unfold write_snapshot, bind, eval.
    destruct (app_toJSON (world s)) as [e|snapshot].
    - exists []. rewrite app_nil_r. split; [done|]. split; [done|simpl; lia].
    - unfold browser_history.
      pose proof (call_trace (history_call replace [JStr path; snapshot]) s)
        as Htr.
      destruct (call _ s) as [s1 [e|[]]]; simpl in Htr;
        exists [history_call replace [JStr path; snapshot]];
        (split; [done|]); (split; [|simpl; lia]);
        (constructor; [left; by eexists|done]). }
  change (recordState browser_history s)
    with (try_catch (write_snapshot browser_history path)
            (fun _ => browser_history replace [JStr path; JNull];;
                      emit (console_warn warning)) s).
  unfold try_catch.
  destruct Hattempt as (tried & Htr & Htried & Hlen).
  destruct (write_snapshot browser_history path s) as [s1 [e|[]]];
    simpl in Htr.
  - destruct (Hfallback s1) as (added & Htr' & Hadded & Hlen').
    exists (tried ++ added). rewrite Htr', Htr, <- app_assoc.
    split; [done|]. split; [by apply Forall_app|].
    rewrite List.filter_app, length_app. lia.
  - exists tried. split; [done|]. split; [done|lia].
Qed.
End Recording.

(** X9: the path [recordState] writes puts the hash before the query.
    Without a hash it is [pathname + search], the address of the entry;
    with both a hash and a query it is not the address
    [pathname + search + hash]. *)
Theorem hash_precedes_search (l : HistoryLocation) :
  (h_hash l = None \/ h_hash l = Some "" ->
   entry_path l = h_pathname l +:+ h_search l)
  /\ (forall fragment query,
        h_hash l = Some (String "#" fragment) ->
        h_search l = String "?" query ->
        entry_path l
          <> h_pathname l +:+ h_search l +:+ String "#" fragment).
Proof.
  unfold entry_path. split.
  - by intros [->| ->].
  - intros fragment query -> -> Heq. simpl in Heq.
    apply (inj (String.app (h_pathname l))) in Heq. discriminate.
Qed.

(** *** Links *)

Lemma lower_is_a (c : ascii) :
  lower c = "a"%char <-> c = "a"%char \/ c = "A"%char.
Proof.
  split.
  - destruct c as [[] [] [] [] [] [] [] []]; vm_compute; intros Heq;
      solve [by (left + right)|discriminate].
  - by intros [->| ->].
Qed.

Lemma toLowerCase_is_a (s : string) :
  toLowerCase s = "a" <-> s = "a" \/ s = "A".
Proof.
  split.
  - destruct s as [|c [|c' s]]; simpl; try done.
    intros [= Hc%lower_is_a]. by destruct Hc as [->| ->]; [left|right].
  - by intros [->| ->].
Qed.

Section Links.
Context {W : Type} `{Platform W}.
Variable canUseClientSideNavigation : option string -> bool.

(** X10: a link is navigated on the client exactly when it is an anchor
    (in either case), was not rendered by [Link] ([data-moov-link] is not
    [on]), does not ask for a reload ([data-reload] is neither [true] nor
    [on]), has no target or an empty one or [_self], and
    [canUseClientSideNavigation] accepts its href. *)
Theorem client_navigation_rule (linkEl : Element) :
  shouldNavigateOnClient canUseClientSideNavigation linkEl = true
  <-> (tagName linkEl = "a" \/ tagName linkEl = "A")
      /\ getAttribute "data-moov-link" linkEl <> Some "on"
      /\ getAttribute "data-reload" linkEl <> Some "true"
      /\ getAttribute "data-reload" linkEl <> Some "on"
      /\ (getAttribute "target" linkEl = None
          \/ getAttribute "target" linkEl = Some ""
          \/ getAttribute "target" linkEl = Some "_self")
      /\ canUseClientSideNavigation (getAttribute "href" linkEl) = true.
Proof.
  unfold shouldNavigateOnClient. rewrite <- toLowerCase_is_a.
  destruct (String.eqb (toLowerCase (tagName linkEl)) "a") eqn:Htag; simpl.
  2:{ apply String.eqb_neq in Htag. naive_solver. }
  apply String.eqb_eq in Htag.
  case_bool_decide as Hlink; [naive_solver|].
  case_bool_decide as Hreload.
  { rewrite !elem_of_cons, elem_of_nil in Hreload. naive_solver. }
  rewrite !elem_of_cons, elem_of_nil in Hreload.
  destruct (getAttribute "target" linkEl) as [target|] eqn:Htarget; simpl.
  - destruct (String.eqb target "") eqn:Hempty; simpl.
    + apply String.eqb_eq in Hempty as ->. naive_solver.
    + apply String.eqb_neq in Hempty.
      case_bool_decide as Hself; simpl; naive_solver.
  - naive_solver.
Qed.

(** X11: a click the rule rejects is left to the browser: the listener
    does not prevent the default and does nothing.  A click it accepts
    has its default prevented; then, through the patched history, the app
    state is recorded in the current entry, and once that has returned
    the href of the link is pushed. *)
Theorem click_records_then_pushes (delegateTarget : Element)
    (snapshot : JSON) (s : St W) :
  app_toJSON (world s) = inr snapshot ->
  let click :=
    on_click canUseClientSideNavigation (patched browser_history)
      delegateTarget in
  let href :=
    match getAttribute "href" delegateTarget with
    | Some href => JStr href
    | None => JNull
    end in
  (shouldNavigateOnClient canUseClientSideNavigation delegateTarget = false ->
   click.1 = false /\ click.2 s = (s, inr tt))
  /\ (shouldNavigateOnClient canUseClientSideNavigation delegateTarget = true ->
      click.1 = true
      /\ (exists rest,
            trace (click.2 s).1
              = trace s
                  ++ history_call replace
                       [JStr (entry_path (history_location (world s)));
                        snapshot] :: rest)
      /\ (forall s1,
            recordState browser_history s = (s1, inr tt) ->
            click.2 s = call (history_call push [href]) s1)
      /\ (forall s1 e,
            recordState browser_history s = (s1, inl e) ->
            click.2 s = (s1, inl e))).
Proof.
  intros Hsnap click href. subst click. unfold on_click.
  split; intros Hrule; rewrite Hrule; [done|]. simpl. fold href.
  split; [done|].
  assert (Hpush : push ∈ recorded_methods) by (apply elem_of_cons; by left).
  rewrite (patched_recorded _ _ Hpush). unfold bind.
  destruct (recordState_starts snapshot s Hsnap) as (rest & Hstart).
  destruct (recordState browser_history s) as [s1 [e|[]]] eqn:Hrec;
    simpl in Hstart.
  - split; [by exists rest|]. split; [done|]. by intros ? ? [= <- <-].
  - split.
    + exists (rest ++ [history_call push [href]]).
      unfold browser_history. rewrite call_trace, Hstart.
      by rewrite <- app_assoc.
    + split; [by intros ? [= <-]|done].
Qed.
End Links.

(** *** Scrolling *)

Section Scroll.
Context {App : Type}.
Variable scrollResetPending : App -> bool.
Variable setScrollResetPending : bool -> App -> App.
Variable close_menu : App -> App.

(** X12: when [setScrollResetPending] sets what [scrollResetPending]
    reads: after a route change with action [PUSH], the first update of
    the component scrolls to the top and closes the menu, and no later
    update does so again, however many follow; a route change with any
    other action, on an app with no reset pending, causes no scrolling at
    all. *)
Theorem push_scrolls_once (app : App) (action : string) (n : nat) :
  (forall b a, scrollResetPending (setScrollResetPending b a) = b) ->
  (updates scrollResetPending setScrollResetPending close_menu (S n)
     (onBeforeRouteChange setScrollResetPending "PUSH" app)).1
    = [scrollTo 0 0; menu_close]
  /\ (action <> "PUSH" ->
      scrollResetPending app = false ->
      updates scrollResetPending setScrollResetPending close_menu n
        (onBeforeRouteChange setScrollResetPending action app)
        = ([], app)).
Proof.
  intros Hset.
  assert (Hidle : forall k a,
            scrollResetPending a = false ->
            updates scrollResetPending setScrollResetPending close_menu k a
              = ([], a)).
  { induction k as [|k IH]; intros a Ha; [done|].
    simpl. unfold componentDidUpdate. rewrite Ha. by rewrite (IH a Ha). }
  split.
  - unfold onBeforeRouteChange. simpl. unfold componentDidUpdate.
    rewrite Hset. rewrite Hidle by apply Hset. simpl. done.
  - intros Haction Hpending. unfold onBeforeRouteChange.
    apply String.eqb_neq in Haction. rewrite Haction. by apply Hidle.
Qed.
End Scroll.

(** *** Ids *)

Lemma ids_from (n : nat) (start : Z) :
  (0 <= start)%Z ->
  (start + Z.of_nat n <= 2 ^ 53)%Z ->
  ids n start = (fun i => (start + Z.of_nat i)%Z) <$> seq 0 n.
Proof.
  revert start. induction n as [|n IH]; intros start H0 Hmax; [done|].
  simpl. f_equal; [lia|].
  unfold increment. rewrite (proj2 (Z.ltb_lt _ _)) by lia.
  rewrite IH by lia. rewrite <- fmap_S_seq, <- list_fmap_compose.
  apply list_fmap_ext. intros i x _. simpl. lia.
Qed.

(** X13: counted from a fresh component, the [n] first calls of [nextId]
    return 0, 1, ..., n - 1 in this order, as long as [n] is at most
    2^53: no id is handed out twice. *)
Theorem nextId_counts (n : nat) :
  (Z.of_nat n <= 2 ^ 53)%Z ->
  ids n 0 = Z.of_nat <$> seq 0 n /\ NoDup (ids n 0).
Proof.
  intros Hn.
  assert (Hids : ids n 0 = Z.of_nat <$> seq 0 n).
  { rewrite ids_from by lia. by apply list_fmap_ext. }
  split; [done|]. rewrite Hids.
  apply NoDup_fmap; [apply _|apply NoDup_seq].
Qed.

(** *** Mounting *)

Lemma append_assoc (a b c : string) : (a +:+ b) +:+ c = a +:+ (b +:+ c).
Proof.
  induction a as [|x a IH]; [done|].
  change (String x ((a +:+ b) +:+ c) = String x (a +:+ (b +:+ c))).
  by f_equal.
Qed.

Lemma append_nil_r (a : string) : a +:+ "" = a.
Proof.
  induction a as [|x a IH]; [done|].
  change (String x (a +:+ "") = String x a). by f_equal.
Qed.

(** X14: [componentDidMount] hands pages to the service-worker cache only
    when the browser is online: then the app shell (if there is a router
    and it has one configured), the route data under
    [pathname + search + '.json'] and the document under
    [pathname + search], in this order; offline, nothing is cached. *)
Theorem mount_caches_only_online (m : Mounting) :
  List.filter is_cache (componentDidMount m).1
    = if onLine m then
        (if default false (router m)
         then [cache "/.app-shell" undefined] else [])
          ++ [cache ((app_pathname m +:+ app_search m) +:+ ".json")
                    (initialRouteData m);
              cache (app_pathname m +:+ app_search m)
                    (val (JStr ("<!DOCTYPE html>" +:+ newline
                                  +:+ outerHTML m)))]
      else [].
Proof.
  unfold componentDidMount.
  destruct (onLine m), (page_is_null m), (safari m),
    (router m) as [[]|],
    (String.eqb (NODE_ENV m) "production"),
    (String.eqb (NODE_ENV m) "test"); reflexivity.
Qed.

(** X15: mounted offline, with no page and without a router,
    [componentDidMount] throws a [TypeError]: it calls [fetchFreshState]
    on the router it does not have.  By then it has set up the click
    delegation, added the Safari class if the browser is Safari, recorded
    the app as offline and installed the [online] and the [offline]
    listener, in this order, and nothing else: nothing has been fetched
    or cached, and the devtools are not connected. *)
Theorem mount_offline_without_router (m : Mounting) :
  router m = None -> onLine m = false -> page_is_null m = true ->
  (exists message, (componentDidMount m).2 = Some (Thrown "TypeError" message))
  /\ (componentDidMount m).1
     = [delegate_click]
         ++ (if safari m then [body_class_add "moov-safari"] else [])
         ++ [setOffline true;
             addEventListener "online"; addEventListener "offline"]
  /\ (addEventListener "online" ∈ (componentDidMount m).1)
  /\ (addEventListener "offline" ∈ (componentDidMount m).1)
  /\ (fetchFreshState ∉ (componentDidMount m).1)
  /\ (connectReduxDevtools ∉ (componentDidMount m).1)
  /\ List.filter is_cache (componentDidMount m).1 = [].
Proof.
  intros Hrouter Honline Hpage. unfold componentDidMount.
  rewrite Hrouter, Honline, Hpage. simpl.
  split; [by eexists|]. split; [done|].
  destruct (safari m); simpl;
    rewrite !elem_of_cons, !elem_of_nil; naive_solver.
Qed.

Section Keys.
Context {W : Type} `{Platform W}.

(** X16: for a page mounted online at the address the browser is on, the
    key under which the initial route data is cached is the url
    [fromServer] fetches the state of that page from only when the
    address has no query: with a query the key ends in [.json] whereas
    the url has [.json] before the query. *)
Theorem cached_key_and_fetched_url (m : Mounting) (s : St W) :
  onLine m = true ->
  pathname (window_location (world s)) = app_pathname m ->
  search (window_location (world s)) = app_search m ->
  let key := (app_pathname m +:+ app_search m) +:+ ".json" in
  cache key (initialRouteData m) ∈ (componentDidMount m).1
  /\ (app_search m = "" ->
      fromServer_factory.createURL None s = (s, inr key))
  /\ (forall query,
        app_search m = String "?" query ->
        fromServer_factory.createURL None s <> (s, inr key)).
Proof.
  intros Honline Hpath Hsearch key. split.
  - unfold componentDidMount. rewrite Honline. simpl.
    rewrite !elem_of_app, !elem_of_cons. subst key. auto 10.
  - unfold fromServer_factory.createURL, bind, gets, ret. simpl.
    rewrite Hpath, Hsearch. subst key. split.
    + intros ->. by rewrite !append_nil_r.
    + intros query -> [= Heq].
      rewrite append_assoc in Heq.
      apply (inj (String.app (app_pathname m))) in Heq. discriminate.
Qed.
End Keys.
End PWA_more.

(** * Properties of [ExpandableSection] *)

Module ExpandableSection_facts.
Import ExpandableSection.

(** X17: inside an accordion -- [setExpandedSectionId] is provided and
    [expanded] is not -- opening a section reports its own id,
    [sectionId || title], and sets no state of its own.  Provided that id
    is defined, once it comes back as [expandedSectionId] the section
    itself derives expanded, and every section with another id derives
    collapsed.  Closing reports [null], and with [null] every section
    whose own id is not [null] derives collapsed. *)
Theorem accordion_opens_one (p q : Props) :
  has_setExpandedSectionId p = true ->
  expanded p = undefined ->
  expanded q = undefined ->
  let own := or_ident (sectionId p) (title p) in
  let own_q := or_ident (sectionId q) (title q) in
  own <> id_undefined ->
  (forall x, (setState x ∉ onChange p true)
             /\ (setState x ∉ onChange p false))
  /\ (setExpandedSectionId own ∈ onChange p true)
  /\ (setExpandedSectionId id_null ∈ onChange p false)
  /\ (expandedSectionId p = own ->
      getDerivedStateFromProps p = Some (val (JBool true)))
  /\ (expandedSectionId q = own -> own_q <> own ->
      getDerivedStateFromProps q = Some (val (JBool false)))
  /\ (expandedSectionId q = id_null -> own_q <> id_null ->
      getDerivedStateFromProps q = Some (val (JBool false))).
Proof.
  intros Hset Hp Hq own own_q Hown.
  unfold onChange, getDerivedStateFromProps. rewrite Hset, Hp, Hq.
  fold own own_q. repeat split.
  - destruct (has_onChange p); simpl; rewrite !elem_of_cons, elem_of_nil;
      naive_solver.
  - destruct (has_onChange p); simpl; rewrite !elem_of_cons, elem_of_nil;
      naive_solver.
  - destruct (has_onChange p); simpl; rewrite !elem_of_cons; naive_solver.
  - destruct (has_onChange p); simpl; rewrite !elem_of_cons; naive_solver.
  - intros ->. rewrite bool_decide_true by done.
    by rewrite bool_decide_true.
  - intros -> Hne. rewrite bool_decide_true by done.
    by rewrite bool_decide_false.
  - intros -> Hne. rewrite bool_decide_true by done.
    by rewrite bool_decide_false.
Qed.

(** X18: who owns the state.  When the [expanded] prop is given, the
    state shown is that prop whatever the state was, whatever the
    accordion says and whatever is toggled.  When it is not, outside an
    accordion, the props never overwrite the state: after a toggle the
    state is what was toggled, and a fresh section starts from
    [defaultExpanded]. *)
Theorem state_follows_prop_or_toggle (p : Props) (state : Value) (x : bool) :
  (expanded p <> undefined ->
   derive p (after_calls (onChange p x) state) = expanded p)
  /\ (expanded p = undefined ->
      expandedSectionId p = id_undefined ->
      has_setExpandedSectionId p = false ->
      derive p (after_calls (onChange p x) (derive p state)) = val (JBool x)
      /\ derive p (initial_state p) = defaultExpanded p).
Proof.
  unfold derive, getDerivedStateFromProps, initial_state, or_value,
    onChange, after_calls.
  split.
  - intros Hp. by destruct (expanded p).
  - intros -> -> ->. simpl. by rewrite foldl_app.
Qed.

(** X19: the summary gets the class that stops the icon from rotating
    exactly when the collapse icon the constructor settles on differs
    from the expand icon it settles on.  Each icon is taken from the prop
    first, then from the theme; without either, the expand icon is
    [ExpandMoreIcon] and the collapse icon is the expand icon, so that
    the rotating class is kept. *)
Theorem collapse_icon_stops_rotation (p : Props) :
  (getSummaryClasses p = withCollapseIcon
   <-> collapseIcon_of p <> expandIcon_of p)
  /\ (forall i, ExpandIcon p = Some i -> expandIcon_of p = i)
  /\ (forall i, ExpandIcon p = None -> theme_ExpandIcon p = Some i ->
                expandIcon_of p = i)
  /\ (forall i, CollapseIcon p = Some i -> collapseIcon_of p = i)
  /\ (forall i, CollapseIcon p = None -> theme_CollapseIcon p = Some i ->
                collapseIcon_of p = i)
  /\ (CollapseIcon p = None -> theme_CollapseIcon p = None ->
      getSummaryClasses p = summaryIconWrap).
Proof.
  unfold getSummaryClasses, collapseIcon_of, expandIcon_of. split.
  { case_bool_decide; naive_solver. }
  repeat split.
  - by intros i ->.
  - by intros i -> ->.
  - by intros i ->.
  - by intros i -> ->.
  - intros -> ->. simpl. by rewrite bool_decide_false by naive_solver.
Qed.

(** X20: a section of an accordion with neither a [sectionId] nor a title
    (nor an [expanded] prop) reports [undefined] when it is opened; as
    long as the accordion holds [undefined], the props do not update the
    state, and since the section sets no state of its own, toggling it
    leaves its state as it was. *)
Theorem section_without_id_is_stuck (p : Props) (state : Value) (x : bool) :
  has_setExpandedSectionId p = true ->
  expanded p = undefined ->
  or_ident (sectionId p) (title p) = id_undefined ->
  (setExpandedSectionId id_undefined ∈ onChange p true)
  /\ (expandedSectionId p = id_undefined ->
      derive p (after_calls (onChange p x) state) = state).
Proof.
  intros Hset Hp Hown.
  unfold onChange, derive, getDerivedStateFromProps, after_calls.
  rewrite Hset, Hp, Hown. split.
  - destruct (has_onChange p); simpl; rewrite !elem_of_cons; naive_solver.
  - intros ->. rewrite bool_decide_false by naive_solver. simpl.
    rewrite foldl_app. destruct (has_onChange p), x; reflexivity.
Qed.
End ExpandableSection_facts.

(** * The further properties on the concrete browser *)

Module Demo_more.
Import Demo Demo_view fromServer fromServer_factory PWA PWA_view
  ExpandableSection Statements Statements_fetch.

Lemma unparsable_redirect_rejects_witness :
  relative <> ""
  /\ new_URL relative = inl (Thrown "TypeError" "Invalid URL")
  /\ StaleResponseError_is (Thrown "TypeError" "Invalid URL") = false
  /\ fetch_settle (href shop) true (inr (redirect (Some relative))) id s0
     = (s0, inl (Thrown "TypeError" "Invalid URL")).
Proof.
  assert (Hurl : relative <> "") by discriminate.
  split; [exact Hurl|]. split; [reflexivity|]. split; [reflexivity|].
  exact (proj2 (fromServer_more.unparsable_redirect_rejects relative
                  (Thrown "TypeError" "Invalid URL") 200 (inr (JObj ∅))
                  (href shop) true id s0 Hurl eq_refl eq_refl)).
Defined.

Lemma redirect_yields_no_patch_witness :
  let response := mkResponse true (Some newpath) 200 (inr (product 2)) in
  let s1 := (redirectTo (Some newpath) s0).1 in
  redirected response = true
  /\ redirectTo (url response) s0 = (s1, inr tt)
  /\ fetch_settle (href shop) true (inr response) id s0
     = (after id (mkSt (world s1) (trace s1 ++ [set_redirected])),
        inr undefined).
Proof.
  intros response s1.
  assert (Hgo : redirectTo (url response) s0 = (s1, inr tt))
    by (vm_compute; reflexivity).
  split; [reflexivity|]. split; [exact Hgo|].
  exact (proj2 (fromServer_more.redirect_yields_no_patch response (href shop)
                  true id s0 eq_refl) s1 Hgo).
Defined.

Lemma request_headers_witness :
  (ext abortPrefetches (world s0)).2 = None
  /\ exists init,
      trace (fetch_dispatch "/products/1.json" (mkOptions (Some "") true) s0).1
        = [abortPrefetches; doFetch "/products/1.json" init]
      /\ init_cache init = "default"
      /\ (API_VERSION, "1") ∈ init_headers init
      /\ (CLIENT_IF, "cache-hit") ∈ init_headers init.
Proof.
  assert (Habort : (ext abortPrefetches (world s0)).2 = None) by reflexivity.
  split; [exact Habort|].
  destruct (fromServer_more.request_headers "/products/1.json"
              (mkOptions (Some "") true) s0 Habort)
    as (init & Htrace & _ & Hdefault & _ & _ & Hversion & Hhit & _).
  exists init. split; [exact Htrace|]. split.
  { apply Hdefault. right. reflexivity. }
  split; [apply Hversion; reflexivity|].
  apply Hhit. split; reflexivity.
Defined.

Lemma no_service_worker_no_lookup_witness :
  not_ready (world s0) = false
  /\ getCachedResponse not_ready None None id (inr (ok (product 2))) id s0
     = (s0, inr null).
Proof.
  split; [reflexivity|].
  exact (fromServer_more.no_service_worker_no_lookup not_ready None None id
           (inr (ok (product 2))) id s0 eq_refl).
Defined.

Lemma lookup_and_fetch_ask_alike_witness :
  ready (world s0) = true
  /\ (ext abortPrefetches (world s0)).2 = None
  /\ exists rest rest',
      trace (fn_fetch (Some under_api) (Some "force-cache") id
               (inr (ok (product 1))) id s0).1
        = [abortPrefetches;
           doFetch "/api/products/1.json"
             (mkRequestInit "force-cache" "include"
                [(REACT_STOREFRONT, "true"); (API_VERSION, "1")])] ++ rest
      /\ trace (getCachedResponse ready (Some under_api) (Some "force-cache")
                  id (inr (ok (product 1))) id s0).1
         = [abortPrefetches;
            doFetch "/api/products/1.json"
              (mkRequestInit "force-cache" "include"
                 [(REACT_STOREFRONT, "true"); (API_VERSION, "1");
                  (CLIENT_IF, "cache-hit")])] ++ rest'.
Proof.
  split; [reflexivity|]. split; [reflexivity|].
  exact (fromServer_more.lookup_and_fetch_ask_alike ready (Some under_api)
           (Some "force-cache") id (inr (ok (product 1))) id s0
           eq_refl eq_refl).
Defined.

Lemma fn_marks_redirects_lookup_does_not_witness :
  let response := redirect (Some newpath) in
  let s1 :=
    (redirectTo (Some newpath)
       (in_flight "/products/1.json" (mkOptions None false) id s0)).1 in
  let s1' :=
    (redirectTo (Some newpath)
       (in_flight "/products/1.json" (mkOptions None true) id s0)).1 in
  ready (world s0) = true
  /\ (ext abortPrefetches (world s0)).2 = None
  /\ redirected response = true
  /\ set_redirected ∈ trace (fn_fetch None None id (inr response) id s0).1
  /\ getCachedResponse ready None None id (inr response) id s0
     = (after id s1', inr undefined).
Proof.
  intros response s1 s1'.
  assert (Hgo : redirectTo (url response)
                  (in_flight "/products/1.json" (mkOptions None false) id s0)
                = (s1, inr tt)) by (vm_compute; reflexivity).
  assert (Hgo' : redirectTo (url response)
                   (in_flight "/products/1.json" (mkOptions None true) id s0)
                 = (s1', inr tt)) by (vm_compute; reflexivity).
  pose proof (fromServer_more.fn_marks_redirects_lookup_does_not ready None
                None id response id s0 s1 s1' eq_refl eq_refl eq_refl
                Hgo Hgo') as [Hfn Hlookup].
  split; [reflexivity|]. split; [reflexivity|]. split; [reflexivity|].
  split; [|exact Hlookup].
  rewrite Hfn. simpl. rewrite !elem_of_cons. auto 10.
Defined.

Lemma handler_is_tagged_witness :
  (forall k v r, headers_get k (headers_set k v r) = Some v)
  /\ (forall k k' v r,
        k <> k' -> headers_get k (headers_set k' v r) = headers_get k r)
  /\ exists tagged,
      fn_handler headers_set headers_get (fun path : string => path)
        "./product/product-handler"
        (fun (_ : unit) (_ : string) (r : Headers) => r)
        tt "/p/1.json" keyed
        = tagged
      /\ headers_get HANDLER tagged = Some "./product/product-handler"
      /\ headers_get RESPONSE_TYPE tagged = Some "json"
      /\ headers_get SURROGATE_KEY tagged = Some "products".
Proof.
  assert (Hsame : forall k v (r : Headers),
             headers_get k (headers_set k v r) = Some v).
  { intros k v r. unfold headers_get, headers_set.
    destruct (decide (k = k)); [reflexivity|contradiction]. }
  assert (Hother : forall k k' v (r : Headers),
             k <> k' -> headers_get k (headers_set k' v r) = headers_get k r).
  { intros k k' v r Hne. unfold headers_get, headers_set.
    destruct (decide (k = k')); [contradiction|reflexivity]. }
  split; [exact Hsame|]. split; [exact Hother|].
  exact (fromServer_more.handler_is_tagged headers_set headers_get
           (fun path : string => path) "./product/product-handler"
           (fun (_ : unit) (_ : string) (r : Headers) => r)
           tt "/p/1.json" keyed Hsame Hother).
Defined.

Lemma hash_precedes_search_witness :
  let l := mkHistoryLocation "/p/1" "?size=m" (Some "#reviews") in
  h_hash l = Some "#reviews"
  /\ h_search l = "?size=m"
  /\ entry_path l = "/p/1#reviews?size=m"
  /\ entry_path l <> "/p/1?size=m#reviews".
Proof.
  intros l. split; [reflexivity|]. split; [reflexivity|].
  split; [reflexivity|].
  exact (proj2 (PWA_more.hash_precedes_search l) "reviews" "size=m"
               eq_refl eq_refl).
Defined.

Example reloading_link_is_left_alone :
  shouldNavigateOnClient on_site to_cart = true
  /\ shouldNavigateOnClient on_site to_cart_reloading = false.
Proof. split; reflexivity. Qed.

Lemma click_records_then_pushes_witness :
  app_toJSON (world s0) = inr (product 0)
  /\ shouldNavigateOnClient on_site to_cart = true
  /\ (on_click on_site (patched browser_history) to_cart).1 = true
  /\ trace ((on_click on_site (patched browser_history) to_cart).2 s0).1
     = [history_call replace [JStr "/products/1"; product 0];
        history_call push [JStr "/cart"]]
  /\ exists rest,
      trace ((on_click on_site (patched browser_history) to_cart).2 s0).1
        = trace s0
            ++ history_call replace [JStr "/products/1"; product 0] :: rest.
Proof.
  split; [reflexivity|]. split; [reflexivity|]. split; [reflexivity|].
  split; [reflexivity|].
  exact (proj1 (proj2 (proj2 (PWA_more.click_records_then_pushes on_site
                                to_cart (product 0) s0 eq_refl)
                             eq_refl))).
Defined.

Lemma push_scrolls_once_witness :
  (forall b a : bool, id ((fun b _ => b) b a) = b)
  /\ (updates id (fun b _ => b) id 3
        (onBeforeRouteChange (fun b _ => b) "PUSH" false)).1
     = [scrollTo 0 0; menu_close].
Proof.
  assert (Hset : forall b a : bool, id ((fun b _ => b) b a) = b)
    by reflexivity.
  split; [exact Hset|].
  exact (proj1 (PWA_more.push_scrolls_once id (fun b _ => b) id false "POP" 2
                  Hset)).
Defined.

Lemma nextId_counts_witness :
  (Z.of_nat 3 <= 2 ^ 53)%Z /\ ids 3 0 = [0; 1; 2]%Z /\ NoDup (ids 3 0).
Proof.
  assert (Hn : (Z.of_nat 3 <= 2 ^ 53)%Z) by (vm_compute; discriminate).
  split; [exact Hn|]. exact (PWA_more.nextId_counts 3 Hn).
Defined.

Lemma mount_offline_without_router_witness :
  router mounting_offline = None
  /\ onLine mounting_offline = false
  /\ page_is_null mounting_offline = true
  /\ (componentDidMount mounting_offline).1
     = [delegate_click; setOffline true;
        addEventListener "online"; addEventListener "offline"]
  /\ (componentDidMount mounting_offline).2 <> None.
Proof.
  split; [reflexivity|]. split; [reflexivity|]. split; [reflexivity|].
  pose proof (PWA_more.mount_offline_without_router mounting_offline
                eq_refl eq_refl eq_refl) as ([message Hthrows] & Hdone & _).
  split; [exact Hdone|].
  rewrite Hthrows. discriminate.
Defined.

Lemma cached_key_and_fetched_url_witness :
  onLine mounting = true
  /\ pathname (window_location (world s0)) = app_pathname mounting
  /\ search (window_location (world s0)) = app_search mounting
  /\ PWA_view.cache "/products/1.json" (val (product 1))
       ∈ (componentDidMount mounting).1
  /\ createURL None s0 = (s0, inr "/products/1.json").
Proof.
  split; [reflexivity|]. split; [reflexivity|]. split; [reflexivity|].
  pose proof (PWA_more.cached_key_and_fetched_url mounting s0 eq_refl
                eq_refl eq_refl) as (Hcached & Hsame & _).
  split; [exact Hcached|exact (Hsame eq_refl)].
Defined.

Lemma accordion_opens_one_witness :
  has_setExpandedSectionId details = true
  /\ expanded details = undefined
  /\ expanded reviews = undefined
  /\ or_ident (sectionId details) (title details) <> id_undefined
  /\ (setExpandedSectionId (id_string "details") ∈ onChange details true)
  /\ getDerivedStateFromProps details = Some (val (JBool true))
  /\ getDerivedStateFromProps reviews = Some (val (JBool false)).
Proof.
  assert (Hown : or_ident (sectionId details) (title details) <> id_undefined)
    by discriminate.
  pose proof (ExpandableSection_facts.accordion_opens_one
                details reviews eq_refl eq_refl eq_refl Hown)
    as (_ & Hopen & _ & Hself & Hother & _).
  repeat (split; [first [reflexivity|exact Hown]|]).
  split; [exact Hopen|]. split; [exact (Hself eq_refl)|].
  apply (Hother eq_refl). discriminate.
Defined.

Lemma state_follows_prop_or_toggle_witness :
  expanded controlled <> undefined
  /\ derive controlled
       (after_calls (onChange controlled true) (val (JBool true)))
     = val (JBool false)
  /\ expanded standalone = undefined
  /\ expandedSectionId standalone = id_undefined
  /\ has_setExpandedSectionId standalone = false
  /\ derive standalone
       (after_calls (onChange standalone false)
          (derive standalone (initial_state standalone)))
     = val (JBool false)
  /\ derive standalone (initial_state standalone) = val (JBool true).
Proof.
  assert (Hc : expanded controlled <> undefined) by discriminate.
  split; [exact Hc|]. split.
  { exact (proj1 (ExpandableSection_facts.state_follows_prop_or_toggle
                    controlled (val (JBool true)) true) Hc). }
  do 3 (split; [reflexivity|]).
  exact (proj2 (ExpandableSection_facts.state_follows_prop_or_toggle
                  standalone (initial_state standalone) false)
               eq_refl eq_refl eq_refl).
Defined.

Lemma collapse_icon_stops_rotation_witness :
  CollapseIcon standalone = None
  /\ theme_CollapseIcon standalone = Some (custom_icon 1)
  /\ collapseIcon_of standalone = custom_icon 1
  /\ getSummaryClasses standalone = withCollapseIcon
  /\ getSummaryClasses details = summaryIconWrap.
Proof.
  pose proof (ExpandableSection_facts.collapse_icon_stops_rotation standalone)
    as (Hclass & _ & _ & _ & Htheme & _).
  pose proof (ExpandableSection_facts.collapse_icon_stops_rotation details)
    as (_ & _ & _ & _ & _ & Hnone).
  split; [reflexivity|]. split; [reflexivity|].
  split; [exact (Htheme _ eq_refl eq_refl)|].
  split; [|exact (Hnone eq_refl eq_refl)].
  apply (proj2 Hclass). discriminate.
Defined.

Lemma section_without_id_is_stuck_witness :
  has_setExpandedSectionId nameless = true
  /\ expanded nameless = undefined
  /\ or_ident (sectionId nameless) (title nameless) = id_undefined
  /\ expandedSectionId nameless = id_undefined
  /\ derive nameless (after_calls (onChange nameless true) (val (JBool false)))
     = val (JBool false).
Proof.
  do 4 (split; [reflexivity|]).
  exact (proj2 (ExpandableSection_facts.section_without_id_is_stuck nameless
                  (val (JBool false)) true eq_refl eq_refl eq_refl)
               eq_refl).
Defined.
End Demo_more.
